(** * raspbian-buster-gcc-8-cross-environment-install.py

    A shallow embedding of the provisioning script and the proofs of the
    properties its specification states about it.

    Text is modelled as lists of characters.  A character is a code point
    in U+0000..U+00FF (Rocq's [ascii]); Python's [str] is a sequence of
    code points, and the classes [\d] and [\w] below are Python's on that
    range. *)

From Stdlib Require Import Ascii String List ZArith Lia Bool Arith.
Import ListNotations.

Set Implicit Arguments.
Set Warnings "-register-all".

(** ** Text *)

Definition text := list ascii.

(** [txt "abc"] is the text of a literal. *)
Definition txt (s : string) : text := list_ascii_of_string s.

Definition nl : ascii := ascii_of_nat 10.
Definition dquote : ascii := ascii_of_nat 34.

Fixpoint text_eqb (a b : text) : bool :=
  match a, b with
  | [], [] => true
  | x :: a', y :: b' => Ascii.eqb x y && text_eqb a' b'
  | _, _ => false
  end.

(** ** The methods of Python's [str] that the script calls *)

Module Str.

(** [s.startswith(p)] *)
Fixpoint startswith (p s : text) : bool :=
  match p, s with
  | [], _ => true
  | x :: p', y :: s' => Ascii.eqb x y && startswith p' s'
  | _ :: _, [] => false
  end.

(** The scan of [s.replace(old, new)] for a non-empty [old]: left to right,
    every occurrence found is replaced and the scan goes on behind it;
    [skip] counts the characters of the occurrence still to be passed. *)
Fixpoint replace_from (old new : text) (skip : nat) (s : text) : text :=
  match s with
  | [] => []
  | ch :: s' =>
      match skip with
      | S k => replace_from old new k s'
      | O =>
          if startswith old s
          then new ++ replace_from old new (length old - 1) s'
          else ch :: replace_from old new 0 s'
      end
  end.

(** [s.replace(old, new)].  With an empty [old] Python puts [new] before
    every character and at the end. *)
Definition replace (old new s : text) : text :=
  match old with
  | [] => new ++ flat_map (fun ch => ch :: new) s
  | _ :: _ => replace_from old new 0 s
  end.

(** [s.lstrip(chars)] for a one-character [chars]. *)
Fixpoint lstrip (ch : ascii) (s : text) : text :=
  match s with
  | x :: s' => if Ascii.eqb x ch then lstrip ch s' else s
  | [] => []
  end.

(** [sep.join(l)] *)
Fixpoint join (sep : text) (l : list text) : text :=
  match l with
  | [] => []
  | [x] => x
  | x :: l' => x ++ sep ++ join sep l'
  end.

(** [s * n] on a natural number of copies. *)
Fixpoint copies (s : text) (n : nat) : text :=
  match n with
  | O => []
  | S k => s ++ copies s k
  end.

(** [s * n]: no copy at all when [n] is negative. *)
Definition times (s : text) (n : Z) : text := copies s (Z.to_nat n).

(** [s.split(sep)] for a one-character [sep]. *)
Fixpoint split (sep : ascii) (s : text) : list text :=
  match s with
  | [] => [[]]
  | ch :: s' =>
      if Ascii.eqb ch sep then [] :: split sep s'
      else match split sep s' with
           | h :: t => (ch :: h) :: t
           | [] => [[ch]]
           end
  end.

(** [old] occurs in [s]. *)
Definition occurs (old s : text) : Prop := exists a b, s = a ++ old ++ b.

Fixpoint occursb (old s : text) : bool :=
  startswith old s ||
  match s with
  | [] => false
  | _ :: s' => occursb old s'
  end.

End Str.

(** ** Regular expressions: the part of Python's [re] the script uses

    The matcher is a backtracking one, as CPython's is: [ends r s] lists the
    texts that can be left over after [r] has matched a prefix of [s], in
    the order in which the engine tries them (greedy repetitions give their
    longest match first).  Repetition is over one-character classes only:
    the script repeats [.], [\d] and [\w]. *)

Module Re.

Inductive regex : Type :=
| Lit (l : text)                 (* literal characters, escaped or not *)
| Cls (p : ascii -> bool)        (* a character class *)
| Seq (r1 r2 : regex)
| Alt (r1 r2 : regex)
| Opt (r : regex)                (* r? *)
| Star (p : ascii -> bool)       (* p* *)
| Plus (p : ascii -> bool)       (* p+ *)
| Eol.                           (* $ *)

Definition code (ch : ascii) : nat := nat_of_ascii ch.

Definition between (lo hi n : nat) : bool := (lo <=? n) && (n <=? hi).

(** [.] without DOTALL: any character but the line feed. *)
Definition dot (ch : ascii) : bool := negb (Ascii.eqb ch nl).

(** [\d] on text: the decimal digits; below U+0100 these are 0-9. *)
Definition digit (ch : ascii) : bool := between 48 57 (code ch).

(** [\w] on text: the alphanumeric characters (alphabetic, decimal, digit or
    numeric by Unicode) and the underscore; below U+0100 these are the
    following. *)
Definition word (ch : ascii) : bool :=
  let n := code ch in
  between 48 57 n || between 65 90 n || (n =? 95) || between 97 122 n ||
  (n =? 170) || (n =? 178) || (n =? 179) || (n =? 181) || (n =? 185) ||
  (n =? 186) || between 188 190 n || between 192 214 n ||
  between 216 246 n || between 248 255 n.

Fixpoint star_ends (p : ascii -> bool) (s : text) : list text :=
  match s with
  | ch :: s' => if p ch then star_ends p s' ++ [s] else [s]
  | [] => [[]]
  end.

Definition plus_ends (p : ascii -> bool) (s : text) : list text :=
  match s with
  | ch :: s' => if p ch then star_ends p s' else []
  | [] => []
  end.

Fixpoint ends (r : regex) (s : text) : list text :=
  match r with
  | Lit l => if Str.startswith l s then [skipn (length l) s] else []
  | Cls p => match s with
             | ch :: s' => if p ch then [s'] else []
             | [] => []
             end
  | Seq r1 r2 => flat_map (ends r2) (ends r1 s)
  | Alt r1 r2 => ends r1 s ++ ends r2 s
  | Opt r1 => ends r1 s ++ [s]
  | Star p => star_ends p s
  | Plus p => plus_ends p s
  | Eol => if text_eqb s [] || text_eqb s [nl] then [s] else []
  end.

(** [re.match(r, s)]: the text matched at the start of [s] ([m.group()]),
    or [None]. *)
Definition re_match (r : regex) (s : text) : option text :=
  match ends r s with
  | rest :: _ => Some (firstn (length s - length rest) s)
  | [] => None
  end.

(** The pieces [re.sub] cuts a text into: the matches, leftmost first and
    not overlapping, and the text between them. *)
Inductive piece : Type :=
| Gap (g : text)
| Match (m : text).

Definition raw (p : piece) : text :=
  match p with Gap g => g | Match m => m end.

Definition cons_gap (ch : ascii) (ps : list piece) : list piece :=
  match ps with
  | Gap g :: ps' => Gap (ch :: g) :: ps'
  | _ => Gap [ch] :: ps
  end.

(** The search loop of [re.sub]; [skip] counts the characters of the last
    match still to be passed.  An empty match is recorded and the search
    moves on by one character; the pattern the script substitutes cannot
    match the empty text. *)
Fixpoint scan_from (r : regex) (skip : nat) (s : text) : list piece :=
  match s with
  | [] => match skip, re_match r [] with
          | O, Some m => [Match m]
          | _, _ => []
          end
  | ch :: s' =>
      match skip with
      | S k => scan_from r k s'
      | O =>
          match re_match r s with
          | Some [] => Match [] :: cons_gap ch (scan_from r 0 s')
          | Some m => Match m :: scan_from r (length m - 1) s'
          | None => cons_gap ch (scan_from r 0 s')
          end
      end
  end.

Definition scan (r : regex) (s : text) : list piece := scan_from r 0 s.

End Re.

(** ** [pathlib]: pure POSIX paths *)

Module Pathlib.

(** A path as [pathlib] keeps it: the root ([""], ["/"] or ["//"]) and the
    components behind it. *)
Record PurePath : Type := mkPath { root : text; names : list text }.

(** [_PosixFlavour.splitroot] *)
Definition splitroot (part : text) : text * text :=
  match part with
  | "/"%char :: _ =>
      let stripped := Str.lstrip "/" part in
      if length part - length stripped =? 2
      then (txt "//", stripped)
      else (txt "/", stripped)
  | _ => ([], part)
  end.

(** The components [parse_parts] keeps: not empty and not ["."]. *)
Definition kept (x : text) : bool :=
  negb (text_eqb x []) && negb (text_eqb x (txt ".")).

(** [Path(s)] *)
Definition Path (s : text) : PurePath :=
  let (r, rel) := splitroot s in
  mkPath r (filter kept (Str.split "/" rel)).

(** [p.parts] *)
Definition parts (p : PurePath) : list text :=
  match root p with
  | [] => names p
  | r => r :: names p
  end.

(** [str(p)] *)
Definition str (p : PurePath) : text :=
  match root p ++ Str.join (txt "/") (names p) with
  | [] => txt "."
  | s => s
  end.

(** [p.name] *)
Definition name (p : PurePath) : text := last (names p) [].

(** [p.parent] *)
Definition parent (p : PurePath) : PurePath :=
  mkPath (root p) (removelast (names p)).

(** [p.is_absolute()] *)
Definition is_absolute (p : PurePath) : bool := negb (text_eqb (root p) []).

(** [p._make_child_relpath(n)], the step of every directory walk. *)
Definition child (p : PurePath) (n : text) : PurePath :=
  mkPath (root p) (names p ++ [n]).

End Pathlib.

(** ** The file system the script looks at

    A tree of directories, regular files and symbolic links; a directory
    lists its entries in the order [os.scandir] returns them.  Paths are
    resolved as the kernel does: component by component, following links
    (at most [maxsymlinks] of them).  Permissions are not modelled, and a
    relative path is taken from the root. *)

Module Fs.
Import Pathlib.

Inductive node : Type :=
| File (content : text)
| Link (target : text)
| Dir (entries : list (text * node)).

Fixpoint lookup (n : text) (es : list (text * node)) : option node :=
  match es with
  | [] => None
  | (k, v) :: es' => if text_eqb k n then Some v else lookup n es'
  end.

(** The node at a place given by real directory names, no link followed. *)
Fixpoint descend (t : node) (ns : list text) : option node :=
  match ns with
  | [] => Some t
  | n :: ns' =>
      match t with
      | Dir es => match lookup n es with
                  | Some t' => descend t' ns'
                  | None => None
                  end
      | _ => None
      end
  end.

Definition maxsymlinks : nat := 40.

(** Path resolution: [cwd] is the place reached so far (no link in it),
    [todo] the components still to walk; the result is the place of the
    file the path names. *)
Fixpoint resolve (links : nat) (fs : node) {struct links}
  : list text -> list text -> option (list text) :=
  fix walk (cwd todo : list text) {struct todo} : option (list text) :=
    match todo with
    | [] => Some cwd
    | n :: rest =>
        if text_eqb n (txt "..") then walk (removelast cwd) rest
        else
          match descend fs (cwd ++ [n]) with
          | None => None
          | Some (Dir _) => walk (cwd ++ [n]) rest
          | Some (File _) =>
              match rest with
              | [] => Some (cwd ++ [n])
              | _ :: _ => None
              end
          | Some (Link t) =>
              match links with
              | O => None
              | S k =>
                  let p := Path t in
                  resolve k fs (if is_absolute p then [] else cwd)
                          (names p ++ rest)
              end
          end
    end.

(** [os.stat(p)]: the file [p] names, links followed. *)
Definition stat (fs : node) (p : PurePath) : option node :=
  match resolve maxsymlinks fs [] (names p) with
  | Some place => descend fs place
  | None => None
  end.

(** [os.lstat(p)]: the same, but a link in the last component is not
    followed. *)
Definition lstat (fs : node) (p : PurePath) : option node :=
  match names p with
  | [] => Some fs
  | _ :: _ =>
      let n := last (names p) [] in
      if text_eqb n (txt "..") then stat fs p
      else
        match resolve maxsymlinks fs [] (removelast (names p)) with
        | Some place => descend fs (place ++ [n])
        | None => None
        end
  end.

(** [Path.exists], [Path.is_file], [Path.is_dir], [Path.is_symlink] *)
Definition exists_ (fs : node) (p : PurePath) : bool :=
  match stat fs p with Some _ => true | None => false end.

Definition is_file (fs : node) (p : PurePath) : bool :=
  match stat fs p with Some (File _) => true | _ => false end.

Definition is_dir (fs : node) (p : PurePath) : bool :=
  match stat fs p with Some (Dir _) => true | _ => false end.

Definition is_symlink (fs : node) (p : PurePath) : bool :=
  match lstat fs p with Some (Link _) => true | _ => false end.

(** [os.readlink(p)]; [None] stands for the [OSError] of a path that is
    not a link. *)
Definition readlink (fs : node) (p : PurePath) : option text :=
  match lstat fs p with Some (Link t) => Some t | _ => None end.

(** [_RecursiveWildcardSelector._iterate_directories]: the directory itself,
    then, entry by entry, the directories below it; a link to a directory is
    not entered. *)
Fixpoint iterate_directories (p : PurePath) (t : node) : list PurePath :=
  match t with
  | Dir es =>
      p :: flat_map (fun e : text * node =>
                       match snd e with
                       | Dir _ => iterate_directories (child p (fst e)) (snd e)
                       | _ => []
                       end) es
  | _ => []
  end.

(** [_is_wildcard_pattern] *)
Definition is_wildcard_pattern (pat : text) : bool :=
  existsb (fun ch => Ascii.eqb ch "*" || Ascii.eqb ch "?" || Ascii.eqb ch "[")
          pat.

(** [base.rglob(name)] for a pattern that is one plain name
    ([_PreciseSelector] under [**]): in every directory walked, the entry of
    that name if it exists (links followed). *)
Definition rglob_name (fs : node) (base : PurePath) (n : text)
  : list PurePath :=
  match stat fs base with
  | Some (Dir es) =>
      flat_map (fun d => if exists_ fs (child d n) then [child d n] else [])
               (iterate_directories base (Dir es))
  | _ => []
  end.

(** [base.rglob("*")] ([_WildcardSelector] under [**]): in every directory
    walked, every entry. *)
Definition rglob_all (fs : node) (base : PurePath) : list PurePath :=
  match stat fs base with
  | Some (Dir es) =>
      flat_map (fun d => match stat fs d with
                         | Some (Dir es') => map (fun e => child d (fst e)) es'
                         | _ => []
                         end)
               (iterate_directories base (Dir es))
  | _ => []
  end.

(** [base.rglob(pat)] for the two kinds of pattern the script passes; other
    patterns (wildcards inside a name, several components) give [None]. *)
Definition rglob (fs : node) (base : PurePath) (pat : text)
  : option (list PurePath) :=
  if text_eqb pat (txt "*") then Some (rglob_all fs base)
  else if is_wildcard_pattern pat
          || existsb (Ascii.eqb "/") pat
          || negb (kept pat) || text_eqb pat (txt "..")
       then None
       else Some (rglob_name fs base pat).

(** Induction on trees: a property of the entries carries over to the
    directory. *)
Fixpoint node_induction (P : node -> Prop)
  (HFile : forall content, P (File content))
  (HLink : forall target, P (Link target))
  (HDir : forall es, Forall (fun e => P (snd e)) es -> P (Dir es))
  (t : node) {struct t} : P t :=
  match t with
  | File content => HFile content
  | Link target => HLink target
  | Dir es =>
      HDir es
        ((fix entries (es : list (text * node))
            : Forall (fun e => P (snd e)) es :=
            match es with
            | [] => Forall_nil _
            | e :: es' =>
                Forall_cons e
                  (node_induction P HFile HLink HDir (snd e))
                  (entries es')
            end) es)
  end.

End Fs.

(** ** The constants of the script *)

Module Script.
Import Pathlib.

Definition cmake_c_flags : text :=
  txt " -mcpu=arm1176jzf-s -mtune=arm1176jzf-s  -isystem=/var/chroot/rasp" ++
  txt "bian_buster_armhf  -march=armv6 -mfpu=vfp -mfloat-abi=hard -marm -" ++
  txt "D__GCC_HAVE_SYNC_COMPARE_AND_SWAP_1 -D__GCC_HAVE_SYNC_COMPARE_AND_" ++
  txt "SWAP_2 -D__GCC_HAVE_SYNC_COMPARE_AND_SWAP_8 -D__ARM_FEATURE_LDREX=" ++
  txt "4 -D__GCC_ATOMIC_BOOL_LOCK_FREE=1 -D__GCC_ATOMIC_CHAR_LOCK_FREE=1 " ++
  txt "-D__GCC_ATOMIC_CHAR16_T_LOCK_FREE=1 -D__GCC_ATOMIC_LLONG_LOCK_FREE" ++
  txt "=1 -D__GCC_ATOMIC_SHORT_LOCK_FREE=1 -D__pic__ -D__PIC__ -D__pie__ " ++
  txt "-D__PIE__ -Wl,--sysroot=/var/chroot/raspbian_buster_armhf -specs=/" ++
  txt "opt/toolchains/gcc-8-armv6-specs.txt  ".

Definition cmake_cxx_flags : text :=
  txt "-mcpu=arm1176jzf-s -mtune=arm1176jzf-s  -isystem=/var/chroot/raspb" ++
  txt "ian_buster_armhf  -march=armv6 -mfpu=vfp -mfloat-abi=hard -marm -D" ++
  txt "__GCC_HAVE_SYNC_COMPARE_AND_SWAP_1 -D__GCC_HAVE_SYNC_COMPARE_AND_S" ++
  txt "WAP_2 -D__GCC_HAVE_SYNC_COMPARE_AND_SWAP_8 -D__ARM_FEATURE_LDREX=4" ++
  txt " -D__GCC_ATOMIC_BOOL_LOCK_FREE=1 -D__GCC_ATOMIC_CHAR_LOCK_FREE=1 -" ++
  txt "D__GCC_ATOMIC_CHAR16_T_LOCK_FREE=1 -D__GCC_ATOMIC_LLONG_LOCK_FREE=" ++
  txt "1 -D__GCC_ATOMIC_SHORT_LOCK_FREE=1 -D__pic__ -D__PIC__ -D__pie__ -" ++
  txt "D__PIE__  -Wl,--sysroot=/var/chroot/raspbian_buster_armhf -specs=/" ++
  txt "opt/toolchains/gcc-8-armv6-specs.txt ".

Definition cmake_toolchain_text : text :=
  [nl] ++
  txt "set(CMAKE_SYSTEM_NAME Linux)" ++ [nl] ++
  txt "set(CMAKE_SYSTEM_PROCESSOR arm)" ++ [nl] ++
  [nl] ++
  txt "set(CMAKE_SYSROOT /var/chroot/raspbian_buster_armhf)" ++ [nl] ++
  [nl] ++
  txt "set(CMAKE_C_COMPILER /usr/bin/arm-linux-gnueabihf-gcc-8)" ++ [nl] ++
  txt "set(CMAKE_CXX_COMPILER /usr/bin/arm-linux-gnueabihf-g++-8)" ++ [nl] ++
  txt "set(CMAKE_C_FLAGS " ++ [dquote] ++ cmake_c_flags ++ [dquote] ++
  txt " )" ++ [nl] ++
  txt "set(CMAKE_CXX_FLAGS " ++ [dquote] ++ cmake_cxx_flags ++ [dquote] ++
  txt " )" ++ [nl] ++
  [nl] ++
  [nl] ++
  txt "set(CMAKE_FIND_ROOT_PATH_MODE_PROGRAM NEVER)" ++ [nl] ++
  txt "set(CMAKE_FIND_ROOT_PATH_MODE_LIBRARY ONLY)" ++ [nl] ++
  txt "set(CMAKE_FIND_ROOT_PATH_MODE_INCLUDE ONLY)" ++ [nl] ++
  txt "set(CMAKE_FIND_ROOT_PATH_MODE_PACKAGE ONLY)" ++ [nl] ++
  [nl] ++
  [nl].

Definition ld_search_paths : text :=
  txt "-L/var/chroot/raspbian_buster_armhf/lib -L/var/chroot/raspbian_buster_armhf/lib/arm-linux-gnueabihf " ++
  txt "-L/var/chroot/raspbian_buster_armhf/usr/lib -L/var/chroot/raspbian_buster_armhf/usr/lib/arm-linux-gnueabihf " ++
  txt "-L/var/chroot/raspbian_buster_armhf/usr/lib/arm-linux-gnueabihf " ++
  txt "-L/var/chroot/raspbian_buster_armhf/usr/lib/gcc/arm-linux-gnueabihf/8".

Definition schroot_config : text :=
  [nl] ++
  txt "[raspbian_buster_armhf]" ++ [nl] ++
  txt "description=Raspbian Buster armhf chroot" ++ [nl] ++
  txt "type=directory" ++ [nl] ++
  txt "directory=/var/chroot/raspbian_buster_armhf" ++ [nl] ++
  txt "users={user}" ++ [nl] ++
  txt "root-groups=root,{user}" ++ [nl].

(** The directory of the chroot, which the script spells out wherever it
    needs it. *)
Definition chroot_dir : text := txt "/var/chroot/raspbian_buster_armhf".

(** The pattern of [fix_absolute_links]:
    [.*(?:(?:\.so(?:\.\d+)?)|(?:\.a))$] *)
Definition link_re : Re.regex :=
  Re.Seq (Re.Star Re.dot)
    (Re.Seq
       (Re.Alt
          (Re.Seq (Re.Lit (txt ".so"))
                  (Re.Opt (Re.Seq (Re.Lit (txt ".")) (Re.Plus Re.digit))))
          (Re.Lit (txt ".a")))
       Re.Eol).

(** The pattern of [write_gcc_specs]: [\w+\.o] *)
Definition obj_re : Re.regex :=
  Re.Seq (Re.Plus Re.word) (Re.Lit (txt ".o")).

(** The new target of a link, line 129:
    ["../"*(len(Path(str(path).replace(chroot_dir,"")).parent.parts)-1)
     + str(link_target).lstrip("/")] *)
Definition rel_link_target (path link_target : PurePath) : text :=
  Str.times (txt "../")
    (Z.of_nat
       (length (parts (parent (Path (Str.replace chroot_dir [] (str path))))))
     - 1)
  ++ Str.lstrip "/" (str link_target).

(** The command of line 133:
    [f"cd {path.parent} && sudo ln -fs {rel_link_target} {path.name}"] *)
Definition ln_command (path : PurePath) (rel : text) : text :=
  txt "cd " ++ str (parent path) ++ txt " && sudo ln -fs " ++ rel ++
  txt " " ++ name path.

End Script.

(** ** The run: commands, files and what is printed

    The script acts on the host through [subprocess], [open] and [print].
    A computation takes the world as it is and gives a value or an
    exception, the world it leaves and the events it produced, in order.
    What a shell command does to the world and which status it returns is
    the host's business: [sh] is any function.  Writing a file and spawning
    a program are taken to succeed. *)

Module Run.
Import Pathlib Fs Script.

Inductive exn : Type :=
| CalledProcessError (status : Z) (cmd : text)
| OSError.

(** The six functions [main] calls. *)
Inductive step : Type :=
| InstallHostDeps
| InstallChroot
| MakeDirs
| WriteCmakeToolchain
| WriteGccSpecs
| FixAbsoluteLinks.

Inductive event : Type :=
| Entered (f : step)                 (* a function of [main] is called *)
| Ran (cmd : text) (status : Z)      (* [c(cmd)] and the exit status *)
| Spawned (argv : list text) (status : Z)
                                     (* [subprocess.Popen(argv)] and the
                                        exit status, which nobody reads *)
| Wrote (file content : text)        (* [open(file, "w").write(content)] *)
| Printed (line : text).             (* [print(line)] *)

Section Host.

Variable World : Type.

(** The file system as the script finds it. *)
Variable fs : World -> node.
(** A shell command: its exit status and the world it leaves. *)
Variable sh : text -> World -> Z * World.
(** A spawned program: what it writes to its standard output, and its exit
    status. *)
Variable spawn : list text -> World -> text * Z.
(** Writing a file. *)
Variable write_text : text -> text -> World -> World.
(** The login name of the effective user. *)
Variable login : World -> text.

Record outcome (A : Type) : Type :=
  Outcome { value : A + exn; world : World; trace : list event }.

Definition M (A : Type) : Type := World -> outcome A.

Definition ret {A} (a : A) : M A := fun w => Outcome (inl a) w [].

Definition bind {A B} (m : M A) (f : A -> M B) : M B :=
  fun w =>
    let o := m w in
    match value o with
    | inl a =>
        let o' := f a (world o) in
        Outcome (value o') (world o') (trace o ++ trace o')
    | inr e => Outcome (inr e) (world o) (trace o)
    end.

Definition raise {A} (e : exn) : M A := fun w => Outcome (inr e) w [].

Definition emit (e : event) : M unit := fun w => Outcome (inl tt) w [e].

(** Reading the world. *)
Definition ask {A} (f : World -> A) : M A := fun w => Outcome (inl (f w)) w [].

Notation "x <- m ;; k" := (bind m (fun x => k))
  (at level 61, m at next level, right associativity).
Notation "m ;; k" := (bind m (fun _ => k))
  (at level 61, right associativity).

(** [for x in l: body(x)] *)
Fixpoint for_each {A} (l : list A) (body : A -> M unit) : M unit :=
  match l with
  | [] => ret tt
  | x :: l' => body x ;; for_each l' body
  end.

Fixpoint map_m {A B} (f : A -> M B) (l : list A) : M (list B) :=
  match l with
  | [] => ret []
  | x :: l' => y <- f x ;; ys <- map_m f l' ;; ret (y :: ys)
  end.

(** [re.sub(r, repl, s)] with a function [repl]: the gaps as they are, every
    match as [repl] returns it. *)
Definition re_sub (r : Re.regex) (repl : text -> M text) (s : text) : M text :=
  out <- map_m (fun p => match p with
                         | Re.Gap g => ret g
                         | Re.Match m => repl m
                         end) (Re.scan r s) ;;
  ret (concat out).

(** [print(line)] *)
Definition print (line : text) : M unit := emit (Printed line).

(** [subprocess.Popen(argv, stdout=subprocess.PIPE).stdout.read().decode("utf-8")]:
    the output of the program, whatever its exit status. *)
Definition popen_read (argv : list text) : M text :=
  fun w =>
    let (out, status) := spawn argv w in
    Outcome (inl out) w [Spawned argv status].

(** [with open(file, "w") as f: f.write(content)] *)
Definition write_file (file content : text) : M unit :=
  fun w => Outcome (inl tt) (write_text file content w) [Wrote file content].

(** [def c(cmd): subprocess.check_call(cmd, shell=True)] *)
Definition c (cmd : text) : M unit :=
  fun w =>
    let (status, w') := sh cmd w in
    if Z.eqb status 0
    then Outcome (inl tt) w' [Ran cmd status]
    else Outcome (inr (CalledProcessError status cmd)) w' [Ran cmd status].

(** [def getuser(): return pwd.getpwuid(os.geteuid()).pw_name] *)
Definition getuser : M text := ask login.

Definition install_host_deps : M unit :=
  c (txt "sudo apt update") ;;
  c (txt "sudo apt install -y gcc-8-arm-linux-gnueabihf g++-8-arm-linux-gnueabihf cmake build-essential" ++
     txt "qemu-user-static binfmt-support debootstrap schroot").

Definition make_dirs : M unit :=
  c (txt "sudo mkdir -p /opt/toolchains") ;;
  c (txt "sudo mkdir -p /var/chroot").

Definition install_chroot : M unit :=
  keyring <- ask (fun w => is_file (fs w)
               (Path (txt "/usr/share/keyrings/raspbian-archive-keyring.gpg"))) ;;
  (if negb keyring then
     c (txt "cd /tmp && wget http://archive.raspbian.org/raspbian/pool/main/r/raspbian-archive-keyring/raspbian-archive-keyring_20120528.2_all.deb") ;;
     c (txt "sudo dpkg -i /tmp/raspbian-archive-keyring_20120528.2_all.deb")
   else ret tt) ;;
  bash <- ask (fun w => exists_ (fs w)
               (Path (txt "/var/chroot/raspbian_buster_armhf/bin/bash"))) ;;
  (if negb bash then
     c (txt "sudo debootstrap --arch armhf --foreign --keyring=/usr/share/keyrings/raspbian-archive-keyring.gpg buster /var/chroot/raspbian_buster_armhf http://ftp.acc.umu.se/mirror/raspbian/raspbian/") ;;
     c (txt "sudo cp /usr/bin/qemu-arm* /var/chroot/raspbian_buster_armhf/usr/bin") ;;
     c (txt "sudo chroot /var/chroot/raspbian_buster_armhf /debootstrap/debootstrap --second-stage")
   else ret tt) ;;
  username <- getuser ;;
  let schroot_config2 := Str.replace (txt "{user}") username schroot_config in
  write_file (txt "/tmp/raspbian_buster_armhf") schroot_config2 ;;
  c (txt "sudo chown root:root /tmp/raspbian_buster_armhf") ;;
  c (txt "sudo mv /tmp/raspbian_buster_armhf /etc/schroot/chroot.d/") ;;
  c (txt "sudo schroot -c raspbian_buster_armhf -- apt-get update") ;;
  c (txt "sudo schroot -c raspbian_buster_armhf -- apt-get install -y build-essential g++ gcc cmake").

(** The [replace_with_path] of [write_gcc_specs].  [next(...)] takes the
    first path of the search; no path, and [StopIteration] gives the name
    back.  A name [rglob] does not take as a pattern is outside the model
    and counts as not found; no match of [obj_re] is such a name. *)
Definition replace_with_path (m : text) : M text :=
  let obj := m in
  found <- ask (fun w => rglob (fs w) (Path chroot_dir) obj) ;;
  match found with
  | Some (p :: _) =>
      let obj_absolute := str p in
      print (txt "specs replacing: " ++ m ++ txt " found absolute " ++
             obj_absolute) ;;
      ret obj_absolute
  | _ => ret obj
  end.

(** Line 94, the first rewriting of the specs. *)
Definition substitute_search_paths (specs : text) : text :=
  Str.replace (txt "%D") ld_search_paths specs.

(** Line 106, the second. *)
Definition resolve_objects (specs : text) : M text :=
  re_sub obj_re replace_with_path specs.

Definition write_gcc_specs : M unit :=
  let argv := [txt "/usr/bin/arm-linux-gnueabihf-g++-8"; txt "-dumpspecs"] in
  specs <- popen_read argv ;;
  let specs := substitute_search_paths specs in
  specs <- resolve_objects specs ;;
  write_file (txt "/tmp/gcc-8-armv6-specs.txt") specs ;;
  c (txt "sudo mv /tmp/gcc-8-armv6-specs.txt /opt/toolchains/").

Definition write_cmake_toolchain : M unit :=
  write_file (txt "/tmp/gcc-8-armv6.cmake") cmake_toolchain_text ;;
  c (txt "sudo mv /tmp/gcc-8-armv6.cmake /opt/toolchains/").

(** The test of lines 120 to 124: the entry is a link and [re.match] finds
    the pattern in its name. *)
Definition eligible (t : node) (path : PurePath) : bool :=
  is_symlink t path &&
  match Re.re_match link_re (name path) with Some _ => true | None => false end.

(** The body of the loop of [fix_absolute_links], lines 120 to 133. *)
Definition fix_link (path : PurePath) : M unit :=
  symlink <- ask (fun w => is_symlink (fs w) path) ;;
  if negb symlink then ret tt
  else
    match Re.re_match link_re (name path) with
    | None => ret tt
    | Some _ =>
        target <- ask (fun w => readlink (fs w) path) ;;
        match target with
        | None => raise OSError
        | Some target =>
            let link_target := Path target in
            if negb (is_absolute link_target) then ret tt
            else
              let rel_link_target := rel_link_target path link_target in
              print (txt "replace " ++ str path ++ txt " -> " ++
                     str link_target ++ txt " with relative link " ++
                     rel_link_target) ;;
              print (ln_command path rel_link_target) ;;
              c (ln_command path rel_link_target)
        end
    end.

(** The paths of the loop are those of the tree as the loop finds it: the
    commands of the body put a link in the place of a link, which leaves
    the names of every directory as they are. *)
Definition fix_absolute_links : M unit :=
  paths <- ask (fun w => rglob_all (fs w)
                 (Path (txt "/var/chroot/raspbian_buster_armhf/lib"))) ;;
  for_each paths fix_link.

(** A call of one of the functions of [main]. *)
Definition call (f : step) (body : M unit) : M unit := emit (Entered f) ;; body.

Definition main : M unit :=
  call InstallHostDeps install_host_deps ;;
  call InstallChroot install_chroot ;;
  call MakeDirs make_dirs ;;
  call WriteCmakeToolchain write_cmake_toolchain ;;
  call WriteGccSpecs write_gcc_specs ;;
  call FixAbsoluteLinks fix_absolute_links.

End Host.

(** The functions entered in a trace, in order. *)
Fixpoint entered (t : list event) : list step :=
  match t with
  | [] => []
  | Entered f :: t' => f :: entered t'
  | _ :: t' => entered t'
  end.

(** The commands run in a trace, in order, with their exit status. *)
Fixpoint commands (t : list event) : list (text * Z) :=
  match t with
  | [] => []
  | Ran cmd status :: t' => (cmd, status) :: commands t'
  | _ :: t' => commands t'
  end.

(** The order of the calls in [main]. *)
Definition main_order : list step :=
  [InstallHostDeps; InstallChroot; MakeDirs; WriteCmakeToolchain;
   WriteGccSpecs; FixAbsoluteLinks].

End Run.

(** ** The vocabulary of the specification *)

Module Spec.
Import Pathlib Fs Script Run.

(** A component as [pathlib] keeps it: not empty, not ["."], without a
    slash. *)
Definition component (n : text) : Prop :=
  n <> [] /\ n <> txt "." /\ ~ In "/"%char n.

Definition componentb (n : text) : bool :=
  negb (text_eqb n []) && negb (text_eqb n (txt ".")) &&
  negb (existsb (Ascii.eqb "/") n).

(** The components of the chroot directory. *)
Definition chroot_names : list text :=
  [txt "var"; txt "chroot"; txt "raspbian_buster_armhf"].

(** The path of an entry of the chroot: the components of the chroot
    directory, then the directories [dirs] down to the entry [n]. *)
Definition entry_path (dirs : list text) (n : text) : PurePath :=
  mkPath (txt "/") (chroot_names ++ dirs ++ [n]).

(** The same path spelled from the root of the chroot. *)
Definition inner_spelling (dirs : list text) (n : text) : text :=
  "/"%char :: Str.join (txt "/") (dirs ++ [n]).

(** The endings of a library name: [.so], [.so.<digits>], [.a]. *)
Definition lib_suffix (suf : text) : Prop :=
  suf = txt ".so" \/
  (exists ds, ds <> [] /\ forallb Re.digit ds = true /\ suf = txt ".so." ++ ds) \/
  suf = txt ".a".

(** The name ends with one of them. *)
Definition lib_name (n : text) : Prop :=
  exists pre suf, n = pre ++ suf /\ lib_suffix suf.

(** Word characters followed by [.o]. *)
Definition obj_token (t : text) : Prop :=
  exists w, w <> [] /\ forallb Re.word w = true /\ t = w ++ txt ".o".

(** Where a path leads when its components are taken one after the other
    from the place [cwd], [..] stepping back (and staying at the root). *)
Fixpoint lexical (cwd todo : list text) : list text :=
  match todo with
  | [] => cwd
  | n :: rest =>
      if text_eqb n (txt "..") then lexical (removelast cwd) rest
      else lexical (cwd ++ [n]) rest
  end.

(** The directory [fix_absolute_links] walks. *)
Definition lib_dir : PurePath := Path (txt "/var/chroot/raspbian_buster_armhf/lib").

(** [p] lies below the directory [base]. *)
Definition below (base p : PurePath) : Prop :=
  root p = root base /\ exists rel, rel <> [] /\ names p = names base ++ rel.







(** The directories the flags of [ld_search_paths] name, flag by flag. *)
Definition flag_dirs : list text :=
  [txt "/var/chroot/raspbian_buster_armhf/lib";
   txt "/var/chroot/raspbian_buster_armhf/lib/arm-linux-gnueabihf";
   txt "/var/chroot/raspbian_buster_armhf/usr/lib";
   txt "/var/chroot/raspbian_buster_armhf/usr/lib/arm-linux-gnueabihf";
   txt "/var/chroot/raspbian_buster_armhf/usr/lib/arm-linux-gnueabihf";
   txt "/var/chroot/raspbian_buster_armhf/usr/lib/gcc/arm-linux-gnueabihf/8"].

(** The five library directories of the chroot, by their place in it. *)
Definition library_dirs : list text :=
  map (fun d => chroot_dir ++ d)
      [txt "/lib";
       txt "/lib/arm-linux-gnueabihf";
       txt "/usr/lib";
       txt "/usr/lib/arm-linux-gnueabihf";
       txt "/usr/lib/gcc/arm-linux-gnueabihf/8"].

(** What becomes of a piece of the specs in [resolve_objects]. *)
Definition rewritten (t : node) (p : Re.piece) : text :=
  match p with
  | Re.Gap g => g
  | Re.Match m =>
      match rglob_name t (Path chroot_dir) m with
      | found :: _ => str found
      | [] => m
      end
  end.

(** The order of the stages as the specification gives it, by the function
    that brings each stage about: host-deps-installed, directories-ready,
    chroot-ready, descriptor-written, specs-written, symlinks-fixed. *)
Definition stated_order : list step :=
  [InstallHostDeps; MakeDirs; InstallChroot; WriteCmakeToolchain;
   WriteGccSpecs; FixAbsoluteLinks].

(** A trace in which a failing command, if there is one, is the last event,
    and the run ends with its error. *)
Definition stops_at_failure {W A} (o : outcome W A) : Prop :=
  forall pre cmd status post,
    trace o = pre ++ Ran cmd status :: post ->
    status <> 0%Z ->
    post = [] /\ value o = inr (CalledProcessError status cmd).

(** A run is orderly when every command before its end has succeeded, and
    an error at its end is the error of the command run last. *)
Definition orderly {W A} (o : outcome W A) : Prop :=
  match value o with
  | inl _ => Forall (fun cs => snd cs = 0%Z) (commands (trace o))
  | inr e =>
      exists pre cmd status,
        e = CalledProcessError status cmd /\ status <> 0%Z /\
        trace o = pre ++ [Ran cmd status] /\
        Forall (fun cs => snd cs = 0%Z) (commands pre)
  end.

(** A computation is sound when all its runs are orderly and enter none of
    the functions of [main]. *)
Definition sound {W A} (m : M W A) : Prop :=
  forall w, orderly (m w) /\ entered (trace (m w)) = [].

(** A run follows the order [l] when the functions it enters are the first
    of [l], and all of [l] when it ends without an exception. *)
Definition follows {W A} (o : outcome W A) (l : list step) : Prop :=
  (exists k, entered (trace o) = firstn k l) /\
  (forall a, value o = inl a -> entered (trace o) = l).

(** No match of [r] starts inside a gap of the pieces: from no place in a
    gap does [r] match the text that follows there. *)
Fixpoint gaps_unmatched (r : Re.regex) (ps : list Re.piece) : Prop :=
  match ps with
  | [] => True
  | Re.Gap g :: post =>
      (forall a b, g = a ++ b -> b <> [] ->
                   Re.re_match r (b ++ concat (map Re.raw post)) = None) /\
      gaps_unmatched r post
  | Re.Match _ :: post => gaps_unmatched r post
  end.

End Spec.

(** ** A small host to run the script on *)

Module Sample.
Import Pathlib Fs Script Run.

Definition chroot_tree : node :=
  Dir [
    (txt "bin", Dir [(txt "bash", File [])]);
    (txt "lib", Dir [
       (txt "arm-linux-gnueabihf", Dir [
          (txt "libc.so", Link (txt "/lib/arm-linux-gnueabihf/libc.so.6"));
          (txt "libc.so.6", File []);
          (txt "libdl.so", Link (txt "libdl.so.2"));
          (txt "libdl.so.2", File []);
          (txt "README", Link (txt "/usr/share/doc/README"))]);
       (txt "libm.a", Link (txt "../usr/lib/libm.a"));
       (txt "ld-linux.so.3", Link (txt "/lib/arm-linux-gnueabihf/libc.so.6"))]);
    (txt "usr", Dir [
       (txt "lib", Dir [
          (txt "libz.so", Link (txt "/usr/lib/libz.so.1"));
          (txt "libz.so.1", File []);
          (txt "libm.a", File []);
          (txt "arm-linux-gnueabihf", Dir [
             (txt "crt1.o", File []);
             (txt "crti.o", File [])]);
          (txt "gcc", Dir [(txt "crti.o", File [])])])])].

Definition host : node :=
  Dir [
    (txt "tmp", Dir []);
    (txt "usr", Dir [(txt "share", Dir [(txt "keyrings", Dir [
       (txt "raspbian-archive-keyring.gpg", File [])])])]);
    (txt "var", Dir [(txt "chroot", Dir [
       (txt "raspbian_buster_armhf", chroot_tree)])])].

(** A tree with a link to a directory and a link to nothing. *)
Definition linked_tree : node :=
  Dir [(txt "a", Dir [(txt "x.o", File [])]);
       (txt "b", Link (txt "/a"));
       (txt "c", Link (txt "../missing"))].

(** Every command succeeds and leaves the tree as it is. *)
Definition sh_ok (cmd : text) (w : node) : Z * node := (0%Z, w).

(** Every command succeeds but one. *)
Definition sh_but (bad : text) (cmd : text) (w : node) : Z * node :=
  if text_eqb cmd bad then (1%Z, w) else (0%Z, w).

Definition specs_text : text :=
  txt "*startfile:" ++ [nl] ++
  txt "%{shared:crti.o%s} crt1.o crtn.o %D" ++ [nl].

(** The compiler prints its specs and exits with the given status. *)
Definition spawn_specs (status : Z) (argv : list text) (w : node) : text * Z :=
  (specs_text, status).

Definition write_nothing (file content : text) (w : node) : node := w.

Definition login_pi (w : node) : text := txt "pi".

(** The run of [main] on the sample host. *)
Definition main_run (sh : text -> node -> Z * node) : outcome node unit :=
  main (fun w => w) sh (spawn_specs 0) write_nothing login_pi host.

(** The run of [fix_absolute_links] on a tree where every command succeeds. *)
Definition fix_run (t : node) : outcome node unit :=
  fix_absolute_links (fun w => w) sh_ok t.

(** A host whose [lib] holds two links with a line feed in the name. *)
Definition odd_names_host : node :=
  Dir [
    (txt "var", Dir [(txt "chroot", Dir [
       (txt "raspbian_buster_armhf", Dir [
          (txt "lib", Dir [
             (txt "libx" ++ [nl] ++ txt ".so", Link (txt "/lib/libx.so.1"));
             (txt "libm.so" ++ [nl], Link (txt "/lib/libm.so.6"))])])])])].


(** The sample host after the links that [fix_absolute_links] would set
    anew have their new targets. *)
Definition relinked_host : node :=
  Dir [
    (txt "var", Dir [(txt "chroot", Dir [
       (txt "raspbian_buster_armhf", Dir [
          (txt "lib", Dir [
             (txt "arm-linux-gnueabihf", Dir [
                (txt "libc.so",
                 Link (txt "../../lib/arm-linux-gnueabihf/libc.so.6"));
                (txt "libc.so.6", File []);
                (txt "libdl.so", Link (txt "libdl.so.2"));
                (txt "libdl.so.2", File []);
                (txt "README", Link (txt "/usr/share/doc/README"))]);
             (txt "libm.a", Link (txt "../usr/lib/libm.a"));
             (txt "ld-linux.so.3",
              Link (txt "../lib/arm-linux-gnueabihf/libc.so.6"))]);
          (txt "usr", Dir [
             (txt "lib", Dir [
                (txt "libz.so", Link (txt "/usr/lib/libz.so.1"));
                (txt "libz.so.1", File [])])])])])])].

End Sample.

(** ** The vocabulary of the further properties *)

Module More.
Import Pathlib Fs Script Run Spec.

(** A link the fixup sets anew: eligible, with an absolute target. *)
Definition relinkable (t : node) (path : PurePath) : bool :=
  eligible t path &&
  match readlink t path with
  | Some target => is_absolute (Path target)
  | None => false
  end.

(** The command of the fixup for the link at [path]. *)
Definition relink_command (t : node) (path : PurePath) : text :=
  match readlink t path with
  | Some target => ln_command path (rel_link_target path (Path target))
  | None => []
  end.

(** The registration of the chroot for the user [user]. *)
Definition schroot_config_for (user : text) : text :=
  [nl] ++
  txt "[raspbian_buster_armhf]" ++ [nl] ++
  txt "description=Raspbian Buster armhf chroot" ++ [nl] ++
  txt "type=directory" ++ [nl] ++
  txt "directory=/var/chroot/raspbian_buster_armhf" ++ [nl] ++
  txt "users=" ++ user ++ [nl] ++
  txt "root-groups=root," ++ user ++ [nl].

(** The two files [install_chroot] looks for. *)
Definition keyring_file : PurePath :=
  Path (txt "/usr/share/keyrings/raspbian-archive-keyring.gpg").

Definition bash_file : PurePath :=
  Path (txt "/var/chroot/raspbian_buster_armhf/bin/bash").

(** The commands of [install_chroot]: for the keyring, for the bootstrap of
    the chroot, and for its registration and its packages. *)
Definition keyring_commands : list text :=
  [txt "cd /tmp && wget http://archive.raspbian.org/raspbian/pool/main/r/raspbian-archive-keyring/raspbian-archive-keyring_20120528.2_all.deb";
   txt "sudo dpkg -i /tmp/raspbian-archive-keyring_20120528.2_all.deb"].

Definition bootstrap_commands : list text :=
  [txt "sudo debootstrap --arch armhf --foreign --keyring=/usr/share/keyrings/raspbian-archive-keyring.gpg buster /var/chroot/raspbian_buster_armhf http://ftp.acc.umu.se/mirror/raspbian/raspbian/";
   txt "sudo cp /usr/bin/qemu-arm* /var/chroot/raspbian_buster_armhf/usr/bin";
   txt "sudo chroot /var/chroot/raspbian_buster_armhf /debootstrap/debootstrap --second-stage"].

Definition register_commands : list text :=
  [txt "sudo chown root:root /tmp/raspbian_buster_armhf";
   txt "sudo mv /tmp/raspbian_buster_armhf /etc/schroot/chroot.d/";
   txt "sudo schroot -c raspbian_buster_armhf -- apt-get update";
   txt "sudo schroot -c raspbian_buster_armhf -- apt-get install -y build-essential g++ gcc cmake"].

(** The commands of a run, without their exit status. *)
Definition command_lines {W A} (o : outcome W A) : list text :=
  map fst (commands (trace o)).

(** A run whose commands are the first of [l], and all of [l] when it ends
    without an exception. *)
Definition runs_first_of {W A} (o : outcome W A) (l : list text) : Prop :=
  (exists k, command_lines o = firstn k l) /\
  (forall a, value o = inl a -> command_lines o = l).

(** The same, for a run whose first command is [cmd] and is always run. *)
Definition runs_from {W A} (o : outcome W A) (cmd : text) (l : list text)
  : Prop :=
  (exists k, command_lines o = cmd :: firstn k l) /\
  (forall a, value o = inl a -> command_lines o = cmd :: l).

(** Every event of every run of [m] satisfies [P]. *)
Definition emits_only {W A} (P : event -> Prop) (m : M W A) : Prop :=
  forall w e, In e (trace (m w)) -> P e.

(** The arguments [write_gcc_specs] spawns the compiler with. *)
Definition dumpspecs_argv : list text :=
  [txt "/usr/bin/arm-linux-gnueabihf-g++-8"; txt "-dumpspecs"].

(** A shell on which nothing is tried out: every command succeeds and
    leaves the file system as it is. *)
Definition dry_run {W} (fs : W -> node) (sh : text -> W -> Z * W) : Prop :=
  forall cmd w, fst (sh cmd w) = 0%Z /\ fs (snd (sh cmd w)) = fs w.

(** What [replace_with_path] prints for a piece of the specs: a line for a
    token that is found, nothing else. *)
Definition announcement (t : node) (p : Re.piece) : list event :=
  match p with
  | Re.Gap _ => []
  | Re.Match m =>
      match rglob_name t (Path chroot_dir) m with
      | found :: _ =>
          [Printed (txt "specs replacing: " ++ m ++ txt " found absolute " ++
                    str found)]
      | [] => []
      end
  end.

(** The world after the commands [l], one after the other. *)
Definition after_commands {W} (sh : text -> W -> Z * W) (l : list text)
  (w : W) : W :=
  fold_left (fun w' cmd => snd (sh cmd w')) l w.

(** A command that was run and succeeded. *)
Definition ran_ok (cmd : text) : event := Ran cmd 0.

(** The run [o] with the events [pre] before it. *)
Definition prefixed {W A} (pre : list event) (o : outcome W A) : outcome W A :=
  Outcome (value o) (world o) (pre ++ trace o).

(** The three files the script writes itself. *)
Definition registration_file : text := txt "/tmp/raspbian_buster_armhf".
Definition toolchain_file : text := txt "/tmp/gcc-8-armv6.cmake".
Definition specs_file : text := txt "/tmp/gcc-8-armv6-specs.txt".

(** What a run of [main] may do: enter a function, run a command, print a
    line, spawn the compiler for its specs, and write one of the three
    files. *)
Definition expected_event (e : event) : Prop :=
  match e with
  | Entered _ | Ran _ _ | Printed _ => True
  | Spawned argv _ => argv = dumpspecs_argv
  | Wrote file content =>
      (file = registration_file /\
       exists user, content = schroot_config_for user) \/
      (file = toolchain_file /\ content = cmake_toolchain_text) \/
      file = specs_file
  end.

(** An event other than a command that failed. *)
Definition command_succeeded (e : event) : Prop :=
  match e with
  | Ran _ status => status = 0%Z
  | _ => True
  end.



(** The flags of a flag string of the toolchain file: its words, however
    many spaces part them. *)
Definition flag_words (flags : text) : list text :=
  filter (fun x => negb (text_eqb x [])) (Str.split " " flags).

(** A host without a chroot. *)
Definition bare_host : node :=
  Dir [(txt "tmp", Dir []); (txt "usr", Dir [])].

(** A host with the keyring and an installed chroot. *)
Definition provisioned_host : node := Sample.host.

(** A host with the keyring and no chroot. *)
Definition keyring_host : node :=
  Dir [(txt "usr", Dir [(txt "share", Dir [(txt "keyrings", Dir [
         (txt "raspbian-archive-keyring.gpg", File [])])])])].

End More.

(** * Proofs *)

(** ** Text *)

Lemma text_eqb_spec (a b : text) : reflect (a = b) (text_eqb a b).
Proof.
  revert b; induction a as [|x a IH]; intros [|y b]; simpl;
    try (constructor; congruence).
  destruct (Ascii.eqb_spec x y) as [->|Hne]; simpl.
  - destruct (IH b) as [->|Hne]; constructor; congruence.
  - constructor; congruence.
Qed.

Lemma text_eqb_eq (a b : text) : text_eqb a b = true <-> a = b.
Proof. destruct (text_eqb_spec a b); split; congruence. Qed.


Lemma text_eqb_neq (a b : text) : text_eqb a b = false <-> a <> b.
Proof. destruct (text_eqb_spec a b); split; congruence. Qed.

Module StrFacts.
Import Str.

Lemma startswith_iff (p s : text) :
  startswith p s = true <-> exists r, s = p ++ r.
Proof.
  revert s; induction p as [|x p IH]; intros s; simpl.
  - split; [intros _; now exists s | reflexivity].
  - destruct s as [|y s].
    + split; [discriminate | intros [r Hr]; discriminate].
    + rewrite andb_true_iff, IH. split.
      * intros [Hxy [r ->]]. apply Ascii.eqb_eq in Hxy. subst. now exists r.
      * intros [r Hr]. injection Hr as -> ->. split.
        -- apply Ascii.eqb_refl.
        -- now exists r.
Qed.

Lemma startswith_app (p s : text) : startswith p (p ++ s) = true.
Proof. apply startswith_iff. now exists s. Qed.

Lemma occursb_iff (old s : text) : occursb old s = true <-> occurs old s.
Proof.
  induction s as [|y s IH]; simpl.
  - rewrite orb_false_r, startswith_iff. split.
    + intros [r Hr]. exists [], r. exact Hr.
    + intros [a [b Hab]]. destruct a; [|discriminate]. now exists b.
  - rewrite orb_true_iff, startswith_iff, IH. split.
    + intros [[r Hr] | [a [b Hab]]].
      * exists [], r. exact Hr.
      * exists (y :: a), b. simpl. now rewrite Hab.
    + intros [a [b Hab]]. destruct a as [|x a].
      * left. now exists b.
      * right. injection Hab as _ ->. now exists a, b.
Qed.

Lemma occurs_cons (old s : text) (ch : ascii) :
  occurs old s -> occurs old (ch :: s).
Proof. intros [a [b ->]]. now exists (ch :: a), b. Qed.

(** Passing over the characters of an occurrence. *)
Lemma replace_from_skip (old new p s : text) :
  replace_from old new (length p) (p ++ s) = replace_from old new 0 s.
Proof.
  induction p as [|x p IH]; simpl; [reflexivity | exact IH].
Qed.

(** An occurrence at the head is replaced. *)
Lemma replace_from_hit (old new s : text) :
  old <> [] ->
  replace_from old new 0 (old ++ s) = new ++ replace_from old new 0 s.
Proof.
  destruct old as [|x old]; [congruence | intros _].
  change ((x :: old) ++ s) with (x :: old ++ s).
  cbn [replace_from].
  change (x :: old ++ s) with ((x :: old) ++ s).
  rewrite startswith_app.
  replace (length (x :: old) - 1) with (length old) by (simpl; lia).
  now rewrite replace_from_skip.
Qed.

(** Without an occurrence nothing changes. *)
Lemma replace_from_miss (old new s : text) :
  ~ occurs old s -> replace_from old new 0 s = s.
Proof.
  induction s as [|y s IH]; intros Hno; [reflexivity|].
  cbn [replace_from].
  destruct (startswith old (y :: s)) eqn:Hsw.
  - exfalso. apply Hno. apply startswith_iff in Hsw as [r Hr].
    exists [], r. exact Hr.
  - f_equal. apply IH. intros Hocc. apply Hno. now apply occurs_cons.
Qed.

Lemma replace_miss (old new s : text) :
  ~ occurs old s -> replace old new s = s.
Proof.
  intros Hno. destruct old as [|x old].
  - exfalso. apply Hno. now exists [], s.
  - now apply replace_from_miss.
Qed.

(** A leading occurrence of a non-empty [old] is replaced by [new]. *)
Lemma replace_hit (old new s : text) :
  old <> [] -> replace old new (old ++ s) = new ++ replace old new s.
Proof.
  intros Hne. destruct old as [|x old]; [congruence|].
  now apply (@replace_from_hit (x :: old) new s).
Qed.

Lemma join_cons (sep x : text) (l : list text) :
  l <> [] -> join sep (x :: l) = x ++ sep ++ join sep l.
Proof. destruct l; [congruence | reflexivity]. Qed.

Lemma join_app (sep : text) (a b : list text) :
  a <> [] -> b <> [] -> join sep (a ++ b) = join sep a ++ sep ++ join sep b.
Proof.
  intros Ha Hb. induction a as [|x a IH]; [congruence|].
  destruct a as [|y a].
  - simpl app. now rewrite join_cons.
  - change ((x :: y :: a) ++ b) with (x :: (y :: a) ++ b).
    rewrite join_cons by discriminate.
    rewrite IH by discriminate.
    rewrite (@join_cons sep x (y :: a)) by discriminate.
    now rewrite <- !app_assoc.
Qed.

Lemma split_no_sep (sep : ascii) (s : text) :
  ~ In sep s -> split sep s = [s].
Proof.
  induction s as [|y s IH]; intros Hno; [reflexivity|].
  simpl. destruct (Ascii.eqb_spec y sep) as [->|Hne].
  - exfalso. apply Hno. now left.
  - rewrite IH; [reflexivity|]. intros Hin. apply Hno. now right.
Qed.

Lemma split_app (sep : ascii) (a b : text) :
  ~ In sep a -> split sep (a ++ sep :: b) = a :: split sep b.
Proof.
  induction a as [|y a IH]; intros Hno; simpl.
  - now rewrite Ascii.eqb_refl.
  - destruct (Ascii.eqb_spec y sep) as [->|Hne].
    + exfalso. apply Hno. now left.
    + rewrite IH; [reflexivity|]. intros Hin. apply Hno. now right.
Qed.

(** Splitting what was joined. *)
Lemma split_join (sep : ascii) (l : list text) :
  l <> [] -> Forall (fun x => ~ In sep x) l ->
  split sep (join [sep] l) = l.
Proof.
  induction l as [|x l IH]; [congruence | intros _ Hall].
  inversion Hall as [|? ? Hx Hl]; subst.
  destruct l as [|y l].
  - simpl. now apply split_no_sep.
  - rewrite join_cons by discriminate.
    change (x ++ [sep] ++ join [sep] (y :: l))
      with (x ++ sep :: join [sep] (y :: l)).
    rewrite split_app by assumption.
    now rewrite IH.
Qed.

Lemma lstrip_other (ch : ascii) (s : text) :
  (forall x r, s = x :: r -> x <> ch) -> lstrip ch s = s.
Proof.
  destruct s as [|x s]; intros H; [reflexivity|].
  simpl. destruct (Ascii.eqb_spec x ch) as [->|_]; [|reflexivity].
  exfalso. now apply (H ch s).
Qed.

End StrFacts.

(** ** The first rewriting of the specs: the search-path placeholder *)

Module SearchPaths.
Import Str StrFacts Script Run Spec.

(** The placeholder does not overlap itself, so whether it starts at a
    character of [a] does not depend on what follows [a] when that is the
    placeholder again. *)
Lemma startswith_placeholder (ch : ascii) (a b : text) :
  startswith (txt "%D") (ch :: a ++ txt "%D" ++ b) =
  startswith (txt "%D") (ch :: a).
Proof.
  destruct a as [|z a]; simpl.
  - now rewrite andb_false_r.
  - reflexivity.
Qed.

Lemma replace_from_placeholder (new a b : text) (skip : nat) :
  skip <= length a ->
  replace_from (txt "%D") new skip (a ++ txt "%D" ++ b) =
  replace_from (txt "%D") new skip a ++ new ++
  replace_from (txt "%D") new 0 b.
Proof.
  revert skip. induction a as [|ch a IH]; intros skip Hskip.
  - simpl in Hskip. assert (skip = 0) as -> by lia.
    rewrite app_nil_l. now rewrite replace_from_hit by discriminate.
  - change ((ch :: a) ++ txt "%D" ++ b) with (ch :: a ++ txt "%D" ++ b).
    destruct skip as [|k].
    + cbn [replace_from].
      rewrite startswith_placeholder.
      destruct (startswith (txt "%D") (ch :: a)) eqn:Hsw.
      * assert (1 <= length a) as Hlen.
        { destruct a; simpl in Hsw.
          - now rewrite andb_false_r in Hsw.
          - simpl; lia. }
        change (length (txt "%D") - 1) with 1.
        rewrite IH by exact Hlen. now rewrite <- app_assoc.
      * rewrite IH by lia. reflexivity.
    + cbn [replace_from]. apply IH. simpl in Hskip. lia.
Qed.

(** Every placeholder is replaced, and the text around it is rewritten on
    its own. *)
Lemma substitute_search_paths_app (a b : text) :
  substitute_search_paths (a ++ txt "%D" ++ b) =
  substitute_search_paths a ++ ld_search_paths ++ substitute_search_paths b.
Proof.
  unfold substitute_search_paths, replace. cbn [txt list_ascii_of_string].
  apply (@replace_from_placeholder ld_search_paths a b 0). lia.
Qed.

(** *** Claim C4 *)

(** C4: in the specs rewriter every placeholder [%D] is replaced verbatim
    by the fixed text [ld_search_paths], which is a row of [-L<dir>] flags;
    the directories these flags name are exactly the five library
    directories of the chroot: [lib], [lib/arm-linux-gnueabihf], [usr/lib],
    [usr/lib/arm-linux-gnueabihf] and the compiler's
    [usr/lib/gcc/arm-linux-gnueabihf/8] (the fourth is named by two of the
    six flags). *)
Theorem placeholder_replaced_by_library_flags :
  (forall a b : text,
      substitute_search_paths (a ++ txt "%D" ++ b) =
      substitute_search_paths a ++ ld_search_paths ++
      substitute_search_paths b) /\
  substitute_search_paths (txt "%D") = ld_search_paths /\
  ld_search_paths = join (txt " ") (map (fun d => txt "-L" ++ d) flag_dirs) /\
  length flag_dirs = 6 /\
  (forall d, In d flag_dirs <-> In d library_dirs) /\
  NoDup library_dirs /\
  length library_dirs = 5 /\
  library_dirs =
    [chroot_dir ++ txt "/lib";
     chroot_dir ++ txt "/lib/arm-linux-gnueabihf";
     chroot_dir ++ txt "/usr/lib";
     chroot_dir ++ txt "/usr/lib/arm-linux-gnueabihf";
     chroot_dir ++ txt "/usr/lib/gcc/arm-linux-gnueabihf/8"].
Proof.
  split; [exact substitute_search_paths_app|].
  split; [reflexivity|].
  split; [reflexivity|].
  split; [reflexivity|].
  split.
  - intros d. unfold flag_dirs, library_dirs. cbn [map In].
    change (chroot_dir ++ txt "/lib")
      with (txt "/var/chroot/raspbian_buster_armhf/lib").
    change (chroot_dir ++ txt "/lib/arm-linux-gnueabihf")
      with (txt "/var/chroot/raspbian_buster_armhf/lib/arm-linux-gnueabihf").
    change (chroot_dir ++ txt "/usr/lib")
      with (txt "/var/chroot/raspbian_buster_armhf/usr/lib").
    change (chroot_dir ++ txt "/usr/lib/arm-linux-gnueabihf")
      with (txt "/var/chroot/raspbian_buster_armhf/usr/lib/arm-linux-gnueabihf").
    change (chroot_dir ++ txt "/usr/lib/gcc/arm-linux-gnueabihf/8")
      with (txt "/var/chroot/raspbian_buster_armhf/usr/lib/gcc/arm-linux-gnueabihf/8").
    tauto.
  - split.
    + unfold library_dirs. cbn [map].
      repeat (constructor;
              [ cbn [In]; intros H;
                repeat (destruct H as [H|H];
                        [apply text_eqb_eq in H; vm_compute in H;
                         discriminate H|]);
                exact H |]).
      constructor.
    + split; reflexivity.
Qed.

(** *** Claim C9 *)

(** C9: on a specs text in which the placeholder [%D] does not occur, the
    placeholder substitution returns the text unchanged. *)
Theorem substitution_without_placeholder (specs : text) :
  ~ occurs (txt "%D") specs -> substitute_search_paths specs = specs.
Proof. intros Hno. unfold substitute_search_paths. now apply replace_miss. Qed.

Lemma substitution_without_placeholder_witness :
  ~ occurs (txt "%D") (txt "*link: %{shared:-lc} %d") /\
  substitute_search_paths (txt "*link: %{shared:-lc} %d") =
  txt "*link: %{shared:-lc} %d".
Proof.
  assert (~ occurs (txt "%D") (txt "*link: %{shared:-lc} %d")) as Hno.
  { intros Hocc. apply occursb_iff in Hocc. vm_compute in Hocc. discriminate. }
  split; [exact Hno|].
  apply (@substitution_without_placeholder (txt "*link: %{shared:-lc} %d")).
  exact Hno.
Defined.

(** The text already rewritten holds no placeholder: the substitution is
    idempotent. *)
Lemma occursb_behind_clean (p r : text) :
  forallb (fun z => negb (Ascii.eqb "%" z)) p = true ->
  occursb (txt "%D") (p ++ r) = occursb (txt "%D") r.
Proof.
  induction p as [|z p IH]; intros Hp; [reflexivity|].
  simpl in Hp. apply andb_true_iff in Hp as [Hz Hp].
  apply negb_true_iff in Hz.
  change ((z :: p) ++ r) with (z :: p ++ r).
  cbn [occursb]. rewrite IH by exact Hp.
  simpl. now rewrite Hz.
Qed.

Lemma startswith_cons (x y : ascii) (p s : text) :
  startswith (x :: p) (y :: s) = Ascii.eqb x y && startswith p s.
Proof. reflexivity. Qed.

Lemma replace_from_head (a : text) :
  startswith (txt "D") (replace_from (txt "%D") ld_search_paths 0 a) = true ->
  startswith (txt "D") a = true.
Proof.
  destruct a as [|z a]; [discriminate|].
  cbn [replace_from].
  destruct (startswith (txt "%D") (z :: a)) eqn:Hsw.
  - discriminate.
  - change (txt "D") with ["D"%char]. rewrite !startswith_cons.
    now intros H.
Qed.

Lemma replace_from_placeholder_free (a : text) (skip : nat) :
  occursb (txt "%D") (replace_from (txt "%D") ld_search_paths skip a) = false.
Proof.
  revert skip. induction a as [|ch a IH]; intros skip; [reflexivity|].
  destruct skip as [|k]; cbn [replace_from]; [|apply IH].
  destruct (startswith (txt "%D") (ch :: a)) eqn:Hsw.
  - rewrite occursb_behind_clean by (vm_compute; reflexivity). apply IH.
  - cbn [occursb]. rewrite IH, orb_false_r.
    pose proof (@replace_from_head a) as Hhead.
    set (o := replace_from (txt "%D") ld_search_paths 0 a) in *.
    change (startswith (txt "%D") (ch :: o))
      with (Ascii.eqb "%" ch && startswith (txt "D") o).
    change (startswith (txt "%D") (ch :: a))
      with (Ascii.eqb "%" ch && startswith (txt "D") a) in Hsw.
    destruct (Ascii.eqb "%" ch); [|reflexivity].
    rewrite andb_true_l in Hsw |- *.
    destruct (startswith (txt "D") o); [|reflexivity].
    rewrite Hhead in Hsw by reflexivity. discriminate.
Qed.

Lemma substitute_search_paths_idempotent (specs : text) :
  substitute_search_paths (substitute_search_paths specs) =
  substitute_search_paths specs.
Proof.
  unfold substitute_search_paths at 1. apply replace_miss.
  intros Hocc. apply occursb_iff in Hocc.
  unfold substitute_search_paths, replace in Hocc.
  cbn [txt list_ascii_of_string] in Hocc.
  pose proof (replace_from_placeholder_free specs 0) as Hfree.
  cbn [txt list_ascii_of_string] in Hfree. congruence.
Qed.

End SearchPaths.

(** ** Paths *)

Module PathFacts.
Import Str StrFacts Pathlib Spec.

Lemma componentb_sound (n : text) : componentb n = true -> component n.
Proof.
  unfold componentb, component. rewrite !andb_true_iff, !negb_true_iff.
  intros [[H1 H2] H3]. apply text_eqb_neq in H1, H2.
  repeat split; try assumption.
  intros Hin. assert (existsb (Ascii.eqb "/") n = true); [|congruence].
  apply existsb_exists. exists "/"%char. split; [exact Hin|].
  apply Ascii.eqb_refl.
Qed.

Lemma componentsb_sound (l : list text) :
  forallb componentb l = true -> Forall component l.
Proof.
  rewrite forallb_forall, Forall_forall. intros H x Hx.
  apply componentb_sound. now apply H.
Qed.

Lemma kept_component (n : text) : component n -> kept n = true.
Proof.
  intros [Hne [Hdot _]]. unfold kept.
  apply text_eqb_neq in Hne, Hdot. now rewrite Hne, Hdot.
Qed.

Lemma filter_kept_components (l : list text) :
  Forall component l -> filter kept l = l.
Proof.
  induction 1 as [|x l Hx Hl IH]; [reflexivity|].
  simpl. now rewrite kept_component, IH.
Qed.

Lemma component_no_slash (l : list text) :
  Forall component l -> Forall (fun x => ~ In "/"%char x) l.
Proof. apply Forall_impl. now intros x [_ [_ H]]. Qed.

(** What was joined from components is parsed into them again. *)
Lemma parse_join (l : list text) :
  Forall component l -> filter kept (split "/" (join (txt "/") l)) = l.
Proof.
  intros Hl. destruct l as [|x l]; [reflexivity|].
  change (txt "/") with ["/"%char].
  rewrite split_join; [| discriminate | now apply component_no_slash].
  now apply filter_kept_components.
Qed.

Lemma join_head (l : list text) (x : ascii) (r : text) :
  Forall component l -> join (txt "/") l = x :: r -> x <> "/"%char.
Proof.
  intros Hl Hj Hx. subst x. destruct l as [|y l]; [discriminate|].
  inversion Hl as [|? ? [Hne [_ Hns]] _]; subst.
  destruct y as [|y0 y]; [congruence|].
  destruct l; simpl in Hj; injection Hj as -> _; apply Hns; now left.
Qed.

Lemma lstrip_join (l : list text) :
  Forall component l -> lstrip "/" (join (txt "/") l) = join (txt "/") l.
Proof.
  intros Hl. apply lstrip_other. intros x r Hj. now apply (join_head Hl Hj).
Qed.

(** An absolute path spelled with single slashes. *)
Lemma Path_rooted (l : list text) :
  Forall component l ->
  Path ("/"%char :: join (txt "/") l) = mkPath (txt "/") l.
Proof.
  intros Hl. unfold Path, splitroot.
  cbn [lstrip]. rewrite Ascii.eqb_refl, (lstrip_join Hl).
  cbn [length].
  replace (S (length (join (txt "/") l)) - length (join (txt "/") l)) with 1
    by lia.
  cbn [Nat.eqb]. now rewrite (parse_join Hl).
Qed.

(** A relative path: steps back, then components. *)
Lemma split_step_back (s : text) :
  split "/" (txt "../" ++ s) = txt ".." :: split "/" s.
Proof. reflexivity. Qed.

Lemma parse_steps_back (d : nat) (s : text) :
  filter kept (split "/" (copies (txt "../") d ++ s)) =
  repeat (txt "..") d ++ filter kept (split "/" s).
Proof.
  induction d as [|d IH]; [reflexivity|].
  cbn [copies repeat]. rewrite <- app_assoc, split_step_back.
  cbn [filter]. change (kept (txt "..")) with true. cbn iota.
  now rewrite IH.
Qed.

Lemma Path_relative (d : nat) (l : list text) :
  Forall component l ->
  Path (copies (txt "../") d ++ join (txt "/") l) =
  mkPath [] (repeat (txt "..") d ++ l).
Proof.
  intros Hl. unfold Path.
  assert (splitroot (copies (txt "../") d ++ join (txt "/") l) =
          ([], copies (txt "../") d ++ join (txt "/") l)) as ->.
  { destruct d as [|d].
    - cbn [copies app]. unfold splitroot.
      destruct (join (txt "/") l) as [|x r] eqn:Hj; [reflexivity|].
      pose proof (join_head Hl Hj) as Hx.
      destruct (Ascii.ascii_dec x "/") as [->|Hne]; [congruence|].
      destruct x as [[] [] [] [] [] [] [] []]; try reflexivity. congruence.
    - reflexivity. }
  now rewrite parse_steps_back, (parse_join Hl).
Qed.

Lemma split_elements (s : text) :
  Forall (fun x => ~ In "/"%char x) (split "/" s).
Proof.
  induction s as [|ch s IH]; simpl.
  - constructor; [now intros [] | constructor].
  - destruct (Ascii.eqb_spec ch "/") as [->|Hne].
    + constructor; [now intros [] | exact IH].
    + destruct (split "/" s) as [|h t]; inversion IH; subst.
      * constructor; [|constructor]. intros [H|[]]. congruence.
      * constructor; [|assumption]. intros [H|H]; [congruence | auto].
Qed.

(** The names of a parsed path are components. *)
Lemma Path_names (s : text) : Forall component (names (Path s)).
Proof.
  unfold Path. destruct (splitroot s) as [r rel]. cbn [names].
  pose proof (split_elements rel) as Hall.
  induction (split "/" rel) as [|x l IH]; [constructor|].
  inversion Hall as [|? ? Hx Hl]; subst.
  cbn [filter]. destruct (kept x) eqn:Hk; [|now apply IH].
  constructor; [|now apply IH].
  unfold kept in Hk. apply andb_true_iff in Hk as [H1 H2].
  apply negb_true_iff in H1, H2. apply text_eqb_neq in H1, H2.
  now repeat split.
Qed.

(** The root of a parsed path is [""], ["/"] or ["//"]. *)
Lemma Path_root (s : text) :
  root (Path s) = [] \/ root (Path s) = txt "/" \/ root (Path s) = txt "//".
Proof.
  unfold Path, splitroot.
  destruct s as [|ch s]; [now left|].
  destruct (Ascii.ascii_dec ch "/") as [->|Hne].
  - destruct (_ =? 2); cbn [root]; auto.
  - left. destruct ch as [[] [] [] [] [] [] [] []]; try reflexivity.
    congruence.
Qed.

(** The spelling of an absolute path without its leading slashes. *)
Lemma lstrip_str (p : PurePath) :
  Forall component (names p) ->
  root p = txt "/" \/ root p = txt "//" ->
  lstrip "/" (str p) = join (txt "/") (names p).
Proof.
  intros Hn Hr. unfold str.
  destruct Hr as [-> | ->]; cbn [txt list_ascii_of_string app lstrip];
    rewrite ?Ascii.eqb_refl; now apply lstrip_join.
Qed.

Lemma is_absolute_root (p : PurePath) :
  is_absolute p = true <-> root p <> [].
Proof.
  unfold is_absolute. rewrite negb_true_iff. apply text_eqb_neq.
Qed.

End PathFacts.

(** ** The new target of a link *)

Module Relativizer.
Import Str StrFacts Pathlib PathFacts Script Spec.

Lemma str_entry_path (dirs : list text) (n : text) :
  str (entry_path dirs n) = chroot_dir ++ inner_spelling dirs n.
Proof.
  unfold str, entry_path, inner_spelling. cbn [root names].
  rewrite join_app; [| discriminate | now destruct dirs].
  reflexivity.
Qed.

Lemma removelast_last {A} (l : list A) (x : A) : removelast (l ++ [x]) = l.
Proof. now rewrite removelast_app, app_nil_r by discriminate. Qed.

(** Where the name of the chroot directory occurs in the path of an entry
    only at its head, the number of steps back is the number of directories
    between the chroot directory and the entry. *)
Lemma rel_link_target_depth (dirs : list text) (n : text) (t : PurePath) :
  Forall component (dirs ++ [n]) ->
  ~ occurs chroot_dir (inner_spelling dirs n) ->
  rel_link_target (entry_path dirs n) t =
  copies (txt "../") (length dirs) ++ lstrip "/" (str t).
Proof.
  intros Hc Hno. unfold rel_link_target.
  rewrite str_entry_path.
  rewrite replace_hit by discriminate.
  rewrite replace_miss by exact Hno.
  cbn [app]. unfold inner_spelling. rewrite (Path_rooted Hc).
  unfold parent, parts. cbn [root names]. rewrite removelast_last.
  cbn [txt list_ascii_of_string length]. unfold times.
  replace (Z.to_nat (Z.of_nat (S (length dirs)) - 1)) with (length dirs)
    by lia.
  reflexivity.
Qed.

(** Steps back undo the directories taken. *)
Lemma lexical_steps_back (cwd dirs rest : list text) :
  lexical (cwd ++ dirs) (repeat (txt "..") (length dirs) ++ rest) =
  lexical cwd rest.
Proof.
  revert cwd. induction dirs as [|d dirs IH] using rev_ind; intros cwd.
  - now rewrite app_nil_r.
  - rewrite length_app, Nat.add_comm. cbn [length Nat.add repeat app].
    cbn [lexical]. change (text_eqb (txt "..") (txt "..")) with true.
    cbn iota. rewrite app_assoc, removelast_last. apply IH.
Qed.

(** The soundness of the new target: taken from the directory of the link,
    it leads where the old target leads from the chroot directory. *)
Lemma rel_link_target_sound (dirs : list text) (n target : text) :
  Forall component (dirs ++ [n]) ->
  ~ occurs chroot_dir (inner_spelling dirs n) ->
  is_absolute (Path target) = true ->
  lexical (names (parent (entry_path dirs n)))
          (names (Path (rel_link_target (entry_path dirs n) (Path target)))) =
  lexical chroot_names (names (Path target)).
Proof.
  intros Hc Hno Habs.
  rewrite (rel_link_target_depth (Path target) Hc Hno).
  pose proof (Path_names target) as Hn.
  assert (root (Path target) = txt "/" \/ root (Path target) = txt "//")
    as Hr.
  { apply is_absolute_root in Habs.
    destruct (Path_root target) as [H|H]; [congruence | exact H]. }
  rewrite (lstrip_str _ Hn Hr), (Path_relative _ Hn).
  unfold entry_path, parent. cbn [names root].
  rewrite app_assoc, removelast_last.
  apply lexical_steps_back.
Qed.

(** A parsed path is absolute when its spelling starts with a slash. *)
Lemma Path_is_absolute (s : text) :
  is_absolute (Path s) = startswith (txt "/") s.
Proof.
  unfold is_absolute, Path, splitroot.
  destruct s as [|ch s]; [reflexivity|].
  destruct (Ascii.ascii_dec ch "/") as [->|Hne].
  - destruct (_ =? 2); reflexivity.
  - change (txt "/") with ["/"%char]. cbn [startswith].
    destruct (Ascii.eqb_spec "/" ch) as [<-|_]; [congruence|].
    destruct ch as [[] [] [] [] [] [] [] []]; try reflexivity. congruence.
Qed.

Lemma lstrip_head (s : text) :
  startswith (txt "/") (lstrip "/" s) = false.
Proof.
  induction s as [|x s IH]; [reflexivity|].
  cbn [lstrip]. destruct (Ascii.eqb_spec x "/") as [->|Hne]; [exact IH|].
  change (txt "/") with ["/"%char]. cbn [startswith].
  destruct (Ascii.eqb_spec "/" x) as [<-|_]; [congruence | reflexivity].
Qed.

(** The new target is never absolute. *)
Lemma rel_link_target_relative (path link_target : PurePath) :
  is_absolute (Path (rel_link_target path link_target)) = false.
Proof.
  rewrite Path_is_absolute. unfold rel_link_target, times.
  destruct (Z.to_nat _) as [|d].
  - cbn [copies app]. apply lstrip_head.
  - reflexivity.
Qed.

(** *** Claim C1 *)

(** C1 (the code departs from it): a link whose path holds the name of the
    chroot directory a second time gets a target with too few steps back.
    For the link [lib/var/chroot/raspbian_buster_armhf/libx.so] of the
    chroot with the target [/lib/libx.so.1] the new target is
    [../lib/libx.so.1], which from the directory of the link leads to
    [lib/var/chroot/lib/libx.so.1] of the chroot and not to its
    [lib/libx.so.1]. *)
Theorem second_chroot_name_in_path_breaks_target :
  let path :=
    Path (txt "/var/chroot/raspbian_buster_armhf/lib/var/chroot/raspbian_buster_armhf/libx.so") in
  let link_target := Path (txt "/lib/libx.so.1") in
  path = entry_path [txt "lib"; txt "var"; txt "chroot";
                     txt "raspbian_buster_armhf"] (txt "libx.so") /\
  Re.re_match link_re (name path) = Some (txt "libx.so") /\
  is_absolute link_target = true /\
  rel_link_target path link_target = txt "../lib/libx.so.1" /\
  lexical (names (parent path))
          (names (Path (rel_link_target path link_target))) =
    chroot_names ++ [txt "lib"; txt "var"; txt "chroot"; txt "lib";
                     txt "libx.so.1"] /\
  lexical chroot_names (names link_target) =
    chroot_names ++ [txt "lib"; txt "libx.so.1"] /\
  lexical (names (parent path))
          (names (Path (rel_link_target path link_target))) <>
  lexical chroot_names (names link_target).
Proof.
  cbv zeta. repeat split; try (vm_compute; reflexivity).
  vm_compute. discriminate.
Qed.

(** *** Claim C2 *)

(** C2 as stated fails: for the link [lib/arm-linux-gnueabihf/libc.so] of
    the chroot with the target [/lib/arm-linux-gnueabihf/libc.so.6] the new
    target is not [../libc.so.6]. *)
Lemma libc_target_not_one_step_back :
  rel_link_target
    (Path (txt "/var/chroot/raspbian_buster_armhf/lib/arm-linux-gnueabihf/libc.so"))
    (Path (txt "/lib/arm-linux-gnueabihf/libc.so.6"))
  <> txt "../libc.so.6".
Proof. vm_compute. discriminate. Qed.

(** C2, amended: for the link [lib/arm-linux-gnueabihf/libc.so] of the
    chroot with the target [/lib/arm-linux-gnueabihf/libc.so.6] the new
    target is exactly [../../lib/arm-linux-gnueabihf/libc.so.6]: two steps
    back to the chroot directory, then the old target.  From the directory
    of the link it leads to [lib/arm-linux-gnueabihf/libc.so.6] of the
    chroot, and the command run for this link on the sample host sets it. *)
Theorem libc_target_two_steps_back :
  let path :=
    Path (txt "/var/chroot/raspbian_buster_armhf/lib/arm-linux-gnueabihf/libc.so") in
  let link_target := Path (txt "/lib/arm-linux-gnueabihf/libc.so.6") in
  rel_link_target path link_target =
    txt "../../lib/arm-linux-gnueabihf/libc.so.6" /\
  lexical (names (parent path))
          (names (Path (rel_link_target path link_target))) =
    chroot_names ++ [txt "lib"; txt "arm-linux-gnueabihf"; txt "libc.so.6"] /\
  In (Run.Ran (txt "cd /var/chroot/raspbian_buster_armhf/lib/arm-linux-gnueabihf && sudo ln -fs ../../lib/arm-linux-gnueabihf/libc.so.6 libc.so") 0%Z)
     (Run.trace (Sample.fix_run Sample.host)).
Proof.
  cbv zeta.
  split; [vm_compute; reflexivity|].
  split; [vm_compute; reflexivity|].
  vm_compute. do 5 right. left. reflexivity.
Qed.

(** *** Claim C7 *)

(** C7 as stated fails: the target is not taken as the link holds it but as
    [pathlib] spells it.  For the link [lib/libm.so] of the chroot with the
    target [/lib//libm.so.6] the new target is not [../] followed by
    [lib//libm.so.6]. *)
Lemma respelled_target_not_verbatim :
  rel_link_target
    (entry_path [txt "lib"] (txt "libm.so")) (Path (txt "/lib//libm.so.6"))
  <> copies (txt "../") 1 ++ lstrip "/" (txt "/lib//libm.so.6").
Proof. vm_compute. discriminate. Qed.

(** C7, amended: for a link of the chroot whose path holds the name of the
    chroot directory only at its head, the new target is [../] repeated [d]
    times followed by the old target as [pathlib] spells it (repeated
    slashes, [.] components and a slash at the end dropped) without its
    leading slashes, where [d] is the number of components of the link's
    path below the chroot directory, the file name not counted.  For a
    target spelled that way already this is the old target without its
    leading slash. *)
Theorem new_target_steps_back_then_target
  (dirs : list text) (n target : text) :
  Forall component (dirs ++ [n]) ->
  ~ occurs chroot_dir (inner_spelling dirs n) ->
  rel_link_target (entry_path dirs n) (Path target) =
    copies (txt "../") (length dirs) ++ lstrip "/" (str (Path target)) /\
  (forall l, Forall component l -> target = "/"%char :: join (txt "/") l ->
     rel_link_target (entry_path dirs n) (Path target) =
       copies (txt "../") (length dirs) ++ tl target).
Proof.
  intros Hc Hno. split.
  - now apply rel_link_target_depth.
  - intros l Hl ->. rewrite (rel_link_target_depth _ Hc Hno).
    rewrite (Path_rooted Hl). f_equal.
    apply lstrip_str; [exact Hl | now left].
Qed.

Lemma new_target_steps_back_then_target_witness :
  rel_link_target
    (entry_path [txt "lib"; txt "arm-linux-gnueabihf"] (txt "libc.so"))
    (Path (txt "/lib/arm-linux-gnueabihf/libc.so.6")) =
  copies (txt "../") 2 ++
  lstrip "/" (str (Path (txt "/lib/arm-linux-gnueabihf/libc.so.6"))).
Proof.
  apply (@new_target_steps_back_then_target
           [txt "lib"; txt "arm-linux-gnueabihf"] (txt "libc.so")
           (txt "/lib/arm-linux-gnueabihf/libc.so.6")).
  - apply componentsb_sound. vm_compute. reflexivity.
  - intros Hocc. apply occursb_iff in Hocc. vm_compute in Hocc.
    discriminate.
Defined.

End Relativizer.

(** ** Regular expressions *)

Module ReFacts.
Import Str StrFacts Re.

Lemma In_star_ends (p : ascii -> bool) (s r : text) :
  In r (star_ends p s) <-> exists pre, s = pre ++ r /\ forallb p pre = true.
Proof.
  induction s as [|ch s IH]; cbn [star_ends].
  - split.
    + intros [<-|[]]. now exists [].
    + intros [pre [Hs _]]. symmetry in Hs.
      apply app_eq_nil in Hs as [_ ->]. now left.
  - destruct (p ch) eqn:Hp.
    + rewrite in_app_iff, IH. split.
      * intros [[pre [-> Hpre]] | [<-|[]]].
        -- exists (ch :: pre). split; [reflexivity|].
           cbn [forallb]. now rewrite Hp.
        -- now exists [].
      * intros [[|x pre] [Hs Hpre]].
        -- right. left. exact Hs.
        -- left. injection Hs as <- ->. cbn [forallb] in Hpre.
           apply andb_true_iff in Hpre as [_ Hpre]. now exists pre.
    + split.
      * intros [<-|[]]. now exists [].
      * intros [[|x pre] [Hs Hpre]].
        -- left. exact Hs.
        -- injection Hs as <- ->. cbn [forallb] in Hpre.
           rewrite Hp in Hpre. discriminate.
Qed.

Lemma In_plus_ends (p : ascii -> bool) (s r : text) :
  In r (plus_ends p s) <->
  exists pre, pre <> [] /\ s = pre ++ r /\ forallb p pre = true.
Proof.
  destruct s as [|ch s]; cbn [plus_ends].
  - split; [intros [] | intros [[|x pre] [Hne [Hs _]]]];
      [congruence | discriminate].
  - destruct (p ch) eqn:Hp.
    + rewrite In_star_ends. split.
      * intros [pre [-> Hpre]]. exists (ch :: pre).
        repeat split; [discriminate|]. cbn [forallb]. now rewrite Hp.
      * intros [[|x pre] [Hne [Hs Hpre]]]; [congruence|].
        injection Hs as <- ->. cbn [forallb] in Hpre.
        apply andb_true_iff in Hpre as [_ Hpre]. now exists pre.
    + split; [intros []|].
      intros [[|x pre] [Hne [Hs Hpre]]]; [congruence|].
      injection Hs as <- ->. cbn [forallb] in Hpre.
      rewrite Hp in Hpre. discriminate.
Qed.

Lemma skipn_length_app {A} (l r : list A) : skipn (length l) (l ++ r) = r.
Proof. induction l; [reflexivity | assumption]. Qed.

Lemma In_ends_Lit (l s r : text) : In r (ends (Lit l) s) <-> s = l ++ r.
Proof.
  cbn [ends]. destruct (startswith l s) eqn:Hsw.
  - apply startswith_iff in Hsw as [r' ->]. rewrite skipn_length_app.
    split.
    + intros [<-|[]]. reflexivity.
    + intros H. apply app_inv_head in H. now left.
  - split; [intros []|]. intros ->. now rewrite startswith_app in Hsw.
Qed.

Lemma In_ends_Seq (r1 r2 : regex) (s r : text) :
  In r (ends (Seq r1 r2) s) <-> exists m, In m (ends r1 s) /\ In r (ends r2 m).
Proof. cbn [ends]. apply in_flat_map. Qed.

Lemma In_ends_Alt (r1 r2 : regex) (s r : text) :
  In r (ends (Alt r1 r2) s) <-> In r (ends r1 s) \/ In r (ends r2 s).
Proof. cbn [ends]. apply in_app_iff. Qed.

Lemma In_ends_Opt (r1 : regex) (s r : text) :
  In r (ends (Opt r1) s) <-> In r (ends r1 s) \/ r = s.
Proof.
  cbn [ends]. rewrite in_app_iff. cbn [In]. intuition congruence.
Qed.

Lemma In_ends_Eol (s r : text) :
  In r (ends Eol s) <-> r = s /\ (s = [] \/ s = [nl]).
Proof.
  cbn [ends].
  destruct (text_eqb_spec s []) as [->|H1]; cbn [orb].
  - cbn [In]. intuition congruence.
  - destruct (text_eqb_spec s [nl]) as [->|H2]; cbn [In];
      intuition congruence.
Qed.

Lemma re_match_Some (r : regex) (s : text) :
  (exists m, re_match r s = Some m) <-> exists rest, In rest (ends r s).
Proof.
  unfold re_match. destruct (ends r s) as [|rest l].
  - split; intros [x H]; [discriminate | destruct H].
  - split; intros _; eexists; [now left | reflexivity].
Qed.

Lemma re_match_None (r : regex) (s : text) :
  re_match r s = None <-> ends r s = [].
Proof.
  unfold re_match. destruct (ends r s); split; congruence.
Qed.

End ReFacts.

(** ** The test of the names *)

Module Classifier.
Import Str StrFacts Re ReFacts Pathlib Fs Script Run Spec.

(** What [link_re] matches: characters other than the line feed, then one
    of the three endings, then the end of the name or a line feed that ends
    it. *)
Lemma In_ends_link_re (n r : text) :
  In r (ends link_re n) <->
  exists pre suf,
    n = pre ++ suf ++ r /\ forallb dot pre = true /\ lib_suffix suf /\
    (r = [] \/ r = [nl]).
Proof.
  unfold link_re. rewrite In_ends_Seq. split.
  - intros [m [Hm Hr]].
    apply In_star_ends in Hm as [pre [-> Hpre]].
    apply In_ends_Seq in Hr as [m2 [Hm2 Hr]].
    apply In_ends_Eol in Hr as [-> Hend].
    exists pre.
    apply In_ends_Alt in Hm2 as [Hso | Ha].
    + apply In_ends_Seq in Hso as [m3 [Hm3 Hopt]].
      apply In_ends_Lit in Hm3 as ->.
      apply In_ends_Opt in Hopt as [Hnum | ->].
      * apply In_ends_Seq in Hnum as [m4 [Hm4 Hds]].
        apply In_ends_Lit in Hm4 as ->.
        apply In_plus_ends in Hds as [ds [Hne [-> Hds]]].
        exists (txt ".so." ++ ds). repeat split; try assumption.
        right. left. now exists ds.
      * exists (txt ".so"). repeat split; try assumption. now left.
    + apply In_ends_Lit in Ha as ->.
      exists (txt ".a"). repeat split; try assumption. now right; right.
  - intros [pre [suf [-> [Hpre [Hsuf Hend]]]]].
    exists (suf ++ r). split; [apply In_star_ends; now exists pre|].
    apply In_ends_Seq. exists r. split; [|now apply In_ends_Eol].
    apply In_ends_Alt.
    destruct Hsuf as [-> | [[ds [Hne [Hds ->]]] | ->]].
    + left. apply In_ends_Seq. exists r. split; [now apply In_ends_Lit|].
      apply In_ends_Opt. now right.
    + left. apply In_ends_Seq. exists (txt "." ++ ds ++ r). split.
      * apply In_ends_Lit. now rewrite <- !app_assoc.
      * apply In_ends_Opt. left. apply In_ends_Seq. exists (ds ++ r).
        split; [now apply In_ends_Lit|].
        apply In_plus_ends. now exists ds.
    + right. now apply In_ends_Lit.
Qed.

Lemma forallb_dot (s : text) : forallb dot s = true <-> ~ In nl s.
Proof.
  unfold dot. rewrite forallb_forall. split.
  - intros H Hin. apply H in Hin. now rewrite Ascii.eqb_refl in Hin.
  - intros H x Hx. apply negb_true_iff.
    destruct (Ascii.eqb_spec x nl) as [->|]; [contradiction | reflexivity].
Qed.

(** On a name without a line feed the pattern says what the specification
    says: the name ends with [.so], [.so.<digits>] or [.a]. *)
Lemma link_re_lib_name (n : text) :
  ~ In nl n ->
  (exists m, re_match link_re n = Some m) <-> lib_name n.
Proof.
  intros Hnl. rewrite re_match_Some. split.
  - intros [r Hr]. apply In_ends_link_re in Hr
      as [pre [suf [-> [Hpre [Hsuf [-> | ->]]]]]].
    + rewrite app_nil_r. now exists pre, suf.
    + exfalso. apply Hnl. rewrite !in_app_iff. right. right. now left.
  - intros [pre [suf [-> Hsuf]]]. exists []. apply In_ends_link_re.
    exists pre, suf. rewrite app_nil_r. repeat split; auto.
    apply forallb_dot. intros Hin. apply Hnl. apply in_app_iff. now left.
Qed.

(** The test of the loop on a name without a line feed. *)
Lemma eligible_iff (t : node) (path : PurePath) :
  ~ In nl (name path) ->
  eligible t path = true <->
  is_symlink t path = true /\ lib_name (name path).
Proof.
  intros Hnl. unfold eligible. rewrite andb_true_iff.
  rewrite <- (@link_re_lib_name (name path) Hnl).
  destruct (re_match link_re (name path)) as [m|].
  - intuition eauto.
  - split; intros [H1 H2]; [discriminate | destruct H2; discriminate].
Qed.

End Classifier.

(** ** Runs *)

Module RunFacts.
Import Str Re Pathlib Fs Script Run Spec.

Local Notation "m ;; k" := (bind m (fun _ => k))
  (at level 61, right associativity).

Lemma commands_app (t1 t2 : list event) :
  commands (t1 ++ t2) = commands t1 ++ commands t2.
Proof.
  induction t1 as [|e t1 IH]; [reflexivity|].
  destruct e; cbn [app commands]; now rewrite IH.
Qed.

Lemma entered_app (t1 t2 : list event) :
  entered (t1 ++ t2) = entered t1 ++ entered t2.
Proof.
  induction t1 as [|e t1 IH]; [reflexivity|].
  destruct e; cbn [app entered]; now rewrite IH.
Qed.

Lemma In_commands (t : list event) (cmd : text) (status : Z) :
  In (Ran cmd status) t <-> In (cmd, status) (commands t).
Proof.
  induction t as [|e t IH]; [reflexivity|].
  destruct e; cbn [commands In]; rewrite IH;
    try (intuition discriminate).
  split; (intros [H|H]; [left; congruence | now right]).
Qed.

(** In an orderly run a failing command is the last event. *)
Lemma orderly_stops {W A} (o : outcome W A) :
  orderly o -> stops_at_failure o.
Proof.
  unfold orderly, stops_at_failure.
  intros Ho pre cmd status post Ht Hst.
  destruct (value o) as [a|e].
  - exfalso. rewrite Forall_forall in Ho.
    apply Hst. apply (Ho (cmd, status)).
    apply In_commands. rewrite Ht. apply in_elt.
  - destruct Ho as [pre' [cmd' [status' [-> [Hne [Ht' Hpre']]]]]].
    rewrite Ht in Ht'.
    destruct post as [|e post] using rev_ind.
    + apply app_inj_tail in Ht' as [_ Heq]. injection Heq as -> ->.
      now split.
    + exfalso. clear IHpost.
      change (pre ++ Ran cmd status :: post ++ [e])
        with (pre ++ (Ran cmd status :: post) ++ [e]) in Ht'.
      rewrite app_assoc in Ht'. apply app_inj_tail in Ht' as [Hpre _].
      rewrite Forall_forall in Hpre'. apply Hst.
      apply (Hpre' (cmd, status)). apply In_commands.
      rewrite <- Hpre. apply in_elt.
Qed.

Section Host.

Variable World : Type.
Variable fs : World -> node.
Variable sh : text -> World -> Z * World.
Variable spawn : list text -> World -> text * Z.
Variable write_text : text -> text -> World -> World.
Variable login : World -> text.

Lemma sound_ret {A} (a : A) : sound (ret (World:=World) a).
Proof. intros w. split; [constructor | reflexivity]. Qed.

Lemma sound_ask {A} (f : World -> A) : sound (ask f).
Proof. intros w. split; [constructor | reflexivity]. Qed.

Lemma sound_print (line : text) : sound (print (World:=World) line).
Proof. intros w. split; [constructor | reflexivity]. Qed.

Lemma sound_popen_read (argv : list text) : sound (popen_read spawn argv).
Proof.
  intros w. unfold popen_read. destruct (spawn argv w) as [out status].
  split; [constructor | reflexivity].
Qed.

Lemma sound_write_file (file content : text) :
  sound (write_file write_text file content).
Proof. intros w. split; [constructor | reflexivity]. Qed.

Lemma sound_c (cmd : text) : sound (c sh cmd).
Proof.
  intros w. unfold c. destruct (sh cmd w) as [status w'].
  destruct (Z.eqb_spec status 0) as [->|Hne]; split; try reflexivity.
  - unfold orderly. cbn. now constructor.
  - unfold orderly. cbn. exists [], cmd, status. repeat split.
    + exact Hne.
    + constructor.
Qed.

Lemma bind_inl {A B} (m : M World A) (f : A -> M World B) w a :
  value (m w) = inl a ->
  bind m f w =
  Outcome (value (f a (world (m w)))) (world (f a (world (m w))))
          (trace (m w) ++ trace (f a (world (m w)))).
Proof. intros H. unfold bind. now rewrite H. Qed.

Lemma bind_inr {A B} (m : M World A) (f : A -> M World B) w e :
  value (m w) = inr e ->
  bind m f w = Outcome (inr e) (world (m w)) (trace (m w)).
Proof. intros H. unfold bind. now rewrite H. Qed.

Lemma sound_bind {A B} (m : M World A) (f : A -> M World B) :
  sound m -> (forall a, sound (f a)) -> sound (bind m f).
Proof.
  intros Hm Hf w. unfold bind.
  destruct (Hm w) as [Hmo Hme].
  destruct (value (m w)) as [a|e] eqn:Hv.
  - destruct (Hf a (world (m w))) as [Hfo Hfe].
    split.
    + unfold orderly in *. cbn [value trace]. rewrite Hv in Hmo.
      destruct (value (f a (world (m w)))) as [b|e'].
      * rewrite commands_app. apply Forall_app. now split.
      * destruct Hfo as [pre [cmd [status [-> [Hne [Ht Hpre]]]]]].
        exists (trace (m w) ++ pre), cmd, status.
        repeat split; [exact Hne | now rewrite Ht, app_assoc |].
        rewrite commands_app. apply Forall_app. now split.
    + cbn [trace]. now rewrite entered_app, Hme, Hfe.
  - split; [|exact Hme].
    unfold orderly in *. cbn [value trace]. now rewrite Hv in Hmo.
Qed.

Lemma sound_for_each {A} (l : list A) (body : A -> M World unit) :
  (forall x, sound (body x)) -> sound (for_each l body).
Proof.
  intros Hb. induction l as [|x l IH]; cbn [for_each].
  - apply sound_ret.
  - apply sound_bind; [apply Hb | intros _; exact IH].
Qed.

Lemma sound_map_m {A B} (f : A -> M World B) (l : list A) :
  (forall x, sound (f x)) -> sound (map_m f l).
Proof.
  intros Hf. induction l as [|x l IH]; cbn [map_m].
  - apply sound_ret.
  - apply sound_bind; [apply Hf | intros y].
    apply sound_bind; [exact IH | intros ys; apply sound_ret].
Qed.

Ltac sound :=
  repeat first
    [ apply sound_ret | apply sound_ask | apply sound_print
    | apply sound_popen_read | apply sound_write_file | apply sound_c
    | apply sound_bind; [|intro]
    | match goal with
      | |- sound (if ?b then _ else _) => destruct b
      end ].

Lemma sound_install_host_deps : sound (install_host_deps sh).
Proof. unfold install_host_deps. sound. Qed.

Lemma sound_make_dirs : sound (make_dirs sh).
Proof. unfold make_dirs. sound. Qed.

Lemma sound_install_chroot :
  sound (install_chroot fs sh write_text login).
Proof. unfold install_chroot, getuser. sound. Qed.

Lemma sound_write_cmake_toolchain :
  sound (write_cmake_toolchain sh write_text).
Proof. unfold write_cmake_toolchain. sound. Qed.

Lemma sound_replace_with_path (m : text) : sound (replace_with_path fs m).
Proof.
  unfold replace_with_path. apply sound_bind; [apply sound_ask|].
  intros [[|p l]|]; sound.
Qed.

Lemma sound_resolve_objects (specs : text) :
  sound (resolve_objects fs specs).
Proof.
  unfold resolve_objects, re_sub. apply sound_bind; [|intro; sound].
  apply sound_map_m. intros [g|m]; [sound | apply sound_replace_with_path].
Qed.

Lemma sound_write_gcc_specs :
  sound (write_gcc_specs fs sh spawn write_text).
Proof.
  unfold write_gcc_specs.
  apply sound_bind; [sound | intros specs].
  apply sound_bind; [apply sound_resolve_objects | intros specs'].
  sound.
Qed.

Lemma is_symlink_readlink (t : node) (p : PurePath) :
  is_symlink t p = true -> exists target, readlink t p = Some target.
Proof.
  unfold is_symlink, readlink.
  destruct (lstat t p) as [[| target |]|]; try discriminate.
  now exists target.
Qed.

(** The steps of the body of the loop: what it does depends on the three
    tests only. *)
Lemma fix_link_not_symlink (path : PurePath) (w : World) :
  is_symlink (fs w) path = false ->
  fix_link fs sh path w = Outcome (inl tt) w [].
Proof. intros H. unfold fix_link, bind, ask. cbn. now rewrite H. Qed.

Lemma fix_link_other_name (path : PurePath) (w : World) :
  re_match link_re (name path) = None ->
  fix_link fs sh path w = Outcome (inl tt) w [].
Proof.
  intros H. unfold fix_link, bind, ask. cbn.
  destruct (is_symlink (fs w) path); cbn; [|reflexivity].
  now rewrite H.
Qed.

Lemma fix_link_relative (path : PurePath) (w : World) (target : text) :
  readlink (fs w) path = Some target ->
  is_absolute (Path target) = false ->
  fix_link fs sh path w = Outcome (inl tt) w [].
Proof.
  intros Hr Ha. unfold fix_link, bind, ask. cbn.
  destruct (is_symlink (fs w) path); cbn; [|reflexivity].
  destruct (re_match link_re (name path)); [|reflexivity].
  cbn. rewrite Hr. cbn. now rewrite Ha.
Qed.

Lemma fix_link_absolute (path : PurePath) (w : World) (target : text) :
  eligible (fs w) path = true ->
  readlink (fs w) path = Some target ->
  is_absolute (Path target) = true ->
  let rel := rel_link_target path (Path target) in
  let cmd := ln_command path rel in
  fix_link fs sh path w =
  Outcome (if Z.eqb (fst (sh cmd w)) 0 then inl tt
           else inr (CalledProcessError (fst (sh cmd w)) cmd))
          (snd (sh cmd w))
          [Printed (txt "replace " ++ str path ++ txt " -> " ++
                    str (Path target) ++ txt " with relative link " ++ rel);
           Printed cmd;
           Ran cmd (fst (sh cmd w))].
Proof.
  intros He Hr Ha rel cmd. unfold eligible in He.
  apply andb_true_iff in He as [Hs Hm].
  unfold fix_link, bind, ask, print, emit, c. cbn [value world trace].
  rewrite Hs. cbn [negb].
  destruct (re_match link_re (name path)); [|discriminate].
  cbn [value world trace]. rewrite Hr, Ha. cbn [negb].
  fold rel. fold cmd.
  destruct (sh cmd w) as [status w']. cbn [fst snd].
  destruct (Z.eqb status 0); reflexivity.
Qed.

(** The body of the loop does one of two things. *)
Lemma fix_link_cases (path : PurePath) (w : World) :
  fix_link fs sh path w = Outcome (inl tt) w [] \/
  exists target,
    eligible (fs w) path = true /\
    readlink (fs w) path = Some target /\
    is_absolute (Path target) = true.
Proof.
  destruct (is_symlink (fs w) path) eqn:Hs;
    [|left; now apply fix_link_not_symlink].
  destruct (re_match link_re (name path)) as [m|] eqn:Hm;
    [|left; now apply fix_link_other_name].
  destruct (is_symlink_readlink _ _ Hs) as [target Hr].
  destruct (is_absolute (Path target)) eqn:Ha;
    [|left; now apply (fix_link_relative _ _ Hr)].
  right. exists target. repeat split; try assumption.
  unfold eligible. now rewrite Hs, Hm.
Qed.

Lemma sound_fix_link (path : PurePath) : sound (fix_link fs sh path).
Proof.
  intros w. destruct (fix_link_cases path w) as [-> | [target [He [Hr Ha]]]].
  - split; [constructor | reflexivity].
  - rewrite (fix_link_absolute _ _ He Hr Ha).
    set (cmd := ln_command _ _).
    destruct (sh cmd w) as [status w']. cbn [fst snd].
    split; [|reflexivity]. unfold orderly. cbn [value trace].
    destruct (Z.eqb_spec status 0) as [->|Hne].
    + cbn. now constructor.
    + eexists [_; _], cmd, status. repeat split; [exact Hne|].
      cbn. constructor.
Qed.

Lemma sound_fix_absolute_links : sound (fix_absolute_links fs sh).
Proof.
  unfold fix_absolute_links. apply sound_bind; [apply sound_ask|].
  intros paths. apply sound_for_each. apply sound_fix_link.
Qed.

(** A call enters its function and then runs the body. *)
Lemma call_outcome (f : step) (body : M World unit) (w : World) :
  sound body ->
  orderly (call f body w) /\
  entered (trace (call f body w)) = [f] /\
  value (call f body w) = value (body w).
Proof.
  intros Hb. destruct (Hb w) as [Ho He].
  unfold call, bind, emit. cbn [value world trace].
  repeat split.
  - unfold orderly in *. cbn [value trace app commands].
    destruct (value (body w)) as [a|e]; [exact Ho|].
    destruct Ho as [pre [cmd [status [-> [Hne [Ht Hpre]]]]]].
    exists (Entered f :: pre), cmd, status.
    repeat split; [exact Hne | now rewrite Ht | exact Hpre].
  - cbn [app entered]. now rewrite He.
Qed.

(** One more call in front of a run that follows an order. *)
Lemma follows_call (f : step) (body rest : M World unit) (l : list step) :
  sound body ->
  (forall w, orderly (rest w) /\ follows (rest w) l) ->
  forall w,
    orderly ((call f body ;; rest) w) /\
    follows ((call f body ;; rest) w) (f :: l).
Proof.
  intros Hb Hrest w.
  destruct (call_outcome f w Hb) as [Ho [He Hv]].
  destruct (value (call f body w)) as [[]|e] eqn:Hval.
  - rewrite (bind_inl _ _ _ Hval).
    destruct (Hrest (world (call f body w))) as [Hro [[k Hk] Hall]].
    split.
    + unfold orderly in *. cbn [value trace]. rewrite Hval in Ho.
      destruct (value (rest (world (call f body w)))) as [a|e'].
      * rewrite commands_app. apply Forall_app. now split.
      * destruct Hro as [pre [cmd [status [-> [Hne [Ht Hpre]]]]]].
        exists (trace (call f body w) ++ pre), cmd, status.
        repeat split; [exact Hne | now rewrite Ht, app_assoc |].
        rewrite commands_app. apply Forall_app. now split.
    + split; cbn [value trace]; rewrite entered_app, He.
      * exists (S k). cbn [app firstn]. now rewrite Hk.
      * intros a Ha. cbn [app]. f_equal. now apply (Hall a).
  - rewrite (bind_inr _ _ _ Hval). split.
    + unfold orderly in *. cbn [value trace]. now rewrite Hval in Ho.
    + split; cbn [value trace].
      * exists 1. now rewrite He.
      * intros a Ha. discriminate.
Qed.

Lemma follows_last_call (f : step) (body : M World unit) :
  sound body ->
  forall w, orderly (call f body w) /\ follows (call f body w) [f].
Proof.
  intros Hb w. destruct (call_outcome f w Hb) as [Ho [He Hv]].
  split; [exact Ho|]. split.
  - exists 1. exact He.
  - intros a _. exact He.
Qed.

Lemma main_follows (w : World) :
  orderly (main fs sh spawn write_text login w) /\
  follows (main fs sh spawn write_text login w) main_order.
Proof.
  revert w. unfold main, main_order.
  apply follows_call; [apply sound_install_host_deps|].
  apply follows_call; [apply sound_install_chroot|].
  apply follows_call; [apply sound_make_dirs|].
  apply follows_call; [apply sound_write_cmake_toolchain|].
  apply follows_call; [apply sound_write_gcc_specs|].
  apply follows_last_call. apply sound_fix_absolute_links.
Qed.

Lemma trace_bind_ask {A B} (f : World -> A) (k : A -> M World B) (w : World) :
  trace (bind (ask f) k w) = trace (k (f w) w).
Proof. reflexivity. Qed.

(** A loop whose bodies do nothing does nothing. *)
Lemma for_each_nothing {A} (l : list A) (body : A -> M World unit) (w : World) :
  (forall x, In x l -> body x w = Outcome (inl tt) w []) ->
  for_each l body w = Outcome (inl tt) w [].
Proof.
  induction l as [|x l IH]; intros Hb; [reflexivity|].
  cbn [for_each]. unfold bind. rewrite (Hb x) by now left.
  cbn [value world trace app]. rewrite IH; [reflexivity|].
  intros y Hy. apply Hb. now right.
Qed.



End Host.

End RunFacts.

(** ** The walk of [fix_absolute_links] *)

Module Walk.
Import Str Re Pathlib Fs Script Run Spec RunFacts.

Lemma iterate_directories_below (t : node) :
  forall p d, In d (iterate_directories p t) ->
              root d = root p /\ exists rel, names d = names p ++ rel.
Proof.
  induction t as [content | target | es IH] using node_induction;
    intros p d; cbn [iterate_directories In]; try solve [intros []].
  intros [<- | Hin].
  - split; [reflexivity|]. exists []. now rewrite app_nil_r.
  - apply in_flat_map in Hin as [e [He Hd]].
    rewrite Forall_forall in IH. specialize (IH e He).
    destruct (snd e) as [| |es'] eqn:Hsnd; try solve [destruct Hd].
    destruct (IH _ _ Hd) as [Hroot [rel Hrel]].
    split; [exact Hroot|].
    exists ([fst e] ++ rel). cbn [child names] in Hrel.
    now rewrite Hrel, <- app_assoc.
Qed.

(** Every path of the walk lies below the directory walked. *)
Lemma rglob_all_below (t : node) (base p : PurePath) :
  In p (rglob_all t base) -> below base p.
Proof.
  unfold rglob_all.
  destruct (stat t base) as [[| |es]|]; try solve [intros []].
  intros Hin. apply in_flat_map in Hin as [d [Hd Hp]].
  apply iterate_directories_below in Hd as [Hroot [rel Hrel]].
  destruct (stat t d) as [[| |es']|]; try solve [destruct Hp].
  apply in_map_iff in Hp as [e [<- _]].
  split; [exact Hroot|].
  exists (rel ++ [fst e]). split.
  - now destruct rel.
  - cbn [child names]. now rewrite Hrel, app_assoc.
Qed.

(** The paths of the loop of [fix_absolute_links] are paths of entries of
    the chroot, in [lib] or in a directory below it. *)
Lemma fixup_paths (t : node) (p : PurePath) :
  In p (rglob_all t lib_dir) ->
  exists dirs n, p = entry_path (txt "lib" :: dirs) n.
Proof.
  intros Hin. apply rglob_all_below in Hin as [Hroot [rel [Hne Hrel]]].
  destruct (@exists_last _ rel Hne) as [dirs [n ->]].
  exists dirs, n. destruct p as [r ns]. cbn [root names] in *.
  unfold entry_path. f_equal; [exact Hroot|].
  rewrite Hrel. reflexivity.
Qed.

(** *** Where the entries of the walk are located *)














End Walk.

(** ** The order of the run *)

Module Orchestrator.
Import Str Re Pathlib Fs Script Run Spec RunFacts.

(** *** Claim C3 *)

(** C3 as stated fails: the stated order has the directories made before
    the chroot is installed.  On the sample host, where every command
    succeeds, the functions [main] enters are not the first of
    host-deps-installed, directories-ready, chroot-ready,
    descriptor-written, specs-written, symlinks-fixed. *)
Lemma stated_order_not_followed :
  ~ exists k,
      entered (trace (Sample.main_run Sample.sh_ok)) = firstn k stated_order.
Proof.
  intros [k Hk].
  assert (entered (trace (Sample.main_run Sample.sh_ok)) = main_order) as E
    by (vm_compute; reflexivity).
  rewrite E in Hk. clear E. unfold main_order, stated_order in Hk.
  do 2 (destruct k as [|k]; [discriminate Hk|]).
  cbn [firstn] in Hk. destruct k; discriminate Hk.
Qed.

(** C3, amended: [main] enters its six functions in the order
    [install_host_deps], [install_chroot], [make_dirs],
    [write_cmake_toolchain], [write_gcc_specs], [fix_absolute_links]
    (host-deps-installed, chroot-ready, directories-ready,
    descriptor-written, specs-written, symlinks-fixed), one after the other:
    the functions entered in a run are the first of that row, and all of it
    when the run ends without an exception.  A command run through [c] that
    exits non-zero ends the run at once: it is the last event of the run,
    no function is entered after it, and the run ends with its
    [CalledProcessError]; no run ends with any other exception. *)
Theorem main_order_and_failure
  (World : Type) (fs : World -> node) (sh : text -> World -> Z * World)
  (spawn : list text -> World -> text * Z)
  (write_text : text -> text -> World -> World) (login : World -> text)
  (w : World) :
  let o := main fs sh spawn write_text login w in
  (exists k,
      entered (trace o) =
      firstn k [InstallHostDeps; InstallChroot; MakeDirs;
                WriteCmakeToolchain; WriteGccSpecs; FixAbsoluteLinks]) /\
  (forall a, value o = inl a ->
     entered (trace o) =
       [InstallHostDeps; InstallChroot; MakeDirs;
        WriteCmakeToolchain; WriteGccSpecs; FixAbsoluteLinks] /\
     Forall (fun cs => snd cs = 0%Z) (commands (trace o))) /\
  stops_at_failure o /\
  (forall e, value o = inr e ->
     exists pre cmd status,
       e = CalledProcessError status cmd /\ status <> 0%Z /\
       trace o = pre ++ [Ran cmd status]).
Proof.
  cbv zeta.
  destruct (main_follows fs sh spawn write_text login w)
    as [Ho [Hk Hall]].
  split; [exact Hk|].
  split.
  - intros a Ha. split; [now apply (Hall a)|].
    unfold orderly in Ho. now rewrite Ha in Ho.
  - split; [now apply orderly_stops|].
    intros e He. unfold orderly in Ho. rewrite He in Ho.
    destruct Ho as [pre [cmd [status [-> [Hne [Ht _]]]]]].
    now exists pre, cmd, status.
Qed.

(** The exit status of the compiler, which is spawned and not run through
    [c], is not looked at: the run goes on. *)
Example run_goes_on_after_failing_compiler :
  let o := main (fun w : node => w) Sample.sh_ok (Sample.spawn_specs 1)
                Sample.write_nothing Sample.login_pi Sample.host in
  In (Spawned [txt "/usr/bin/arm-linux-gnueabihf-g++-8"; txt "-dumpspecs"] 1)
     (trace o) /\
  value o = inl tt /\
  entered (trace o) = main_order.
Proof.
  cbv zeta. split; [|split; vm_compute; reflexivity].
  vm_compute. do 16 right. left. reflexivity.
Qed.

(** The run on the sample host when making the first directory fails: the
    chroot has been installed, and nothing is entered after [make_dirs]. *)
Example run_stops_in_make_dirs :
  let o := Sample.main_run (Sample.sh_but (txt "sudo mkdir -p /opt/toolchains")) in
  entered (trace o) = [InstallHostDeps; InstallChroot; MakeDirs] /\
  value o =
    inr (CalledProcessError 1 (txt "sudo mkdir -p /opt/toolchains")).
Proof. split; vm_compute; reflexivity. Qed.

End Orchestrator.

(** ** The fixup of the links *)

Module Fixup.
Import Str StrFacts Re ReFacts Pathlib Fs Script Run Spec RunFacts Walk.

Lemma digit_not_nl (ch : ascii) : digit ch = true -> ch <> nl.
Proof. intros H ->. vm_compute in H. discriminate. Qed.

(** A library name does not end in a line feed. *)
Lemma lib_name_last (n : text) : lib_name n -> last n "a"%char <> nl.
Proof.
  intros [pre [suf [-> Hsuf]]].
  destruct Hsuf as [-> | [[ds [Hne [Hds ->]]] | ->]].
  - change (pre ++ txt ".so") with (pre ++ txt ".s" ++ ["o"%char]).
    rewrite !app_assoc, last_last. discriminate.
  - destruct (@exists_last _ ds Hne) as [ds' [d ->]].
    rewrite forallb_app in Hds. apply andb_true_iff in Hds as [_ Hd].
    cbn [forallb] in Hd. rewrite andb_true_r in Hd.
    rewrite !app_assoc, last_last. now apply digit_not_nl.
  - change (pre ++ txt ".a") with (pre ++ txt "." ++ ["a"%char]).
    rewrite !app_assoc, last_last. discriminate.
Qed.

(** *** Claim C6 *)

(** C6 (the code departs from it): a line feed in the name of a link
    misleads the test.  In a [lib] with the links [libx<LF>.so] and
    [libm.so<LF>], both with an absolute target, the first is a link whose
    name ends with [.so] and is not taken as eligible, the second is a link
    whose name ends with none of the three endings and is taken as
    eligible: the only command of the fixup is the one for the second. *)
Theorem line_feed_in_name_misleads_test :
  let t := Sample.odd_names_host in
  let p1 := child lib_dir (txt "libx" ++ [nl] ++ txt ".so") in
  let p2 := child lib_dir (txt "libm.so" ++ [nl]) in
  rglob_all t lib_dir = [p1; p2] /\
  (is_symlink t p1 = true /\ lib_name (name p1) /\ eligible t p1 = false) /\
  (is_symlink t p2 = true /\ ~ lib_name (name p2) /\ eligible t p2 = true) /\
  commands (trace (Sample.fix_run t)) =
    [(txt "cd /var/chroot/raspbian_buster_armhf/lib && sudo ln -fs ../lib/libm.so.6 libm.so" ++ [nl],
      0%Z)].
Proof.
  cbv zeta. split; [vm_compute; reflexivity|].
  split; [|split].
  - split; [vm_compute; reflexivity|].
    split; [|vm_compute; reflexivity].
    exists (txt "libx" ++ [nl]), (txt ".so"). split; [reflexivity | now left].
  - split; [vm_compute; reflexivity|].
    split; [|vm_compute; reflexivity].
    intros Hlib. apply lib_name_last in Hlib. apply Hlib.
    vm_compute. reflexivity.
  - vm_compute. reflexivity.
Qed.

(** *** Claim C8 *)

(** What is left alone.  The body of the loop leaves an entry alone -- no
    command, no exception, the world as it was -- when the entry is not a
    link, when [re.match] does not find the pattern in its name (on a name
    without a line feed: when it ends with none of [.so], [.so.<digits>],
    [.a]), and when it is a link with a relative target.  A target the
    fixup has set is relative.  So over a tree whose eligible links below
    [lib] all have relative targets the whole fixup runs no command and
    changes nothing. *)
Lemma fixup_leaves_other_entries
  (World : Type) (fs : World -> node) (sh : text -> World -> Z * World)
  (w : World) :
  (forall path,
     is_symlink (fs w) path = false \/
     re_match link_re (name path) = None \/
     (exists target, readlink (fs w) path = Some target /\
                     is_absolute (Path target) = false) ->
     fix_link fs sh path w = Outcome (inl tt) w []) /\
  (forall path,
     ~ In nl (name path) -> ~ lib_name (name path) ->
     fix_link fs sh path w = Outcome (inl tt) w []) /\
  (forall path link_target,
     is_absolute (Path (rel_link_target path link_target)) = false) /\
  ((forall path,
      In path (rglob_all (fs w) lib_dir) ->
      eligible (fs w) path = true ->
      exists target, readlink (fs w) path = Some target /\
                     is_absolute (Path target) = false) ->
   fix_absolute_links fs sh w = Outcome (inl tt) w []).
Proof.
  assert (forall path,
     is_symlink (fs w) path = false \/
     re_match link_re (name path) = None \/
     (exists target, readlink (fs w) path = Some target /\
                     is_absolute (Path target) = false) ->
     fix_link fs sh path w = Outcome (inl tt) w []) as Hskip.
  { intros path [H | [H | [target [Hr Ha]]]].
    - now apply fix_link_not_symlink.
    - now apply fix_link_other_name.
    - now apply (fix_link_relative _ _ _ _ Hr). }
  split; [exact Hskip|]. split; [|split].
  - intros path Hnl Hlib. apply Hskip. right. left.
    destruct (re_match link_re (name path)) as [m|] eqn:Hm; [|reflexivity].
    exfalso. apply Hlib.
    apply (@Classifier.link_re_lib_name (name path) Hnl). now exists m.
  - intros path link_target. apply Relativizer.rel_link_target_relative.
  - intros Hrel. unfold fix_absolute_links, bind, ask.
    cbn [value world trace app].
    rewrite for_each_nothing; [reflexivity|].
    intros path Hin. apply Hskip.
    destruct (eligible (fs w) path) eqn:He.
    + right. right. now apply Hrel.
    + unfold eligible in He. apply andb_false_iff in He as [He|He].
      * now left.
      * right. left. now destruct (re_match link_re (name path)).
Qed.

Lemma fixup_leaves_other_entries_witness :
  Sample.fix_run Sample.relinked_host =
  Outcome (inl tt) Sample.relinked_host [].
Proof.
  unfold Sample.fix_run.
  apply (@fixup_leaves_other_entries node (fun w => w) Sample.sh_ok
           Sample.relinked_host).
  intros path Hin He.
  vm_compute in Hin.
  repeat (destruct Hin as [<- | Hin];
          [ first [ vm_compute in He; discriminate
                  | match goal with
                    | |- exists t, readlink ?h ?p = Some t /\ _ =>
                        let r := eval vm_compute in (readlink h p) in
                        match r with
                        | Some ?t => exists t; split; vm_compute; reflexivity
                        end
                    end ] | ]).
  destruct Hin.
Defined.


(** *** Claim C10 *)




End Fixup.

(** ** The second rewriting of the specs: the object files *)

Module Objects.
Import Str StrFacts Re ReFacts Pathlib Fs Script Run Spec RunFacts Walk.

(** *** The search loop of [re.sub] *)

Lemma re_match_prefix (r : regex) (s m : text) :
  re_match r s = Some m -> exists n, m = firstn n s.
Proof.
  unfold re_match. destruct (ends r s) as [|rest l]; [discriminate|].
  intros H. injection H as <-. now eexists.
Qed.

Lemma firstn_skipn_length {A} (n : nat) (l : list A) :
  firstn n l ++ skipn (length (firstn n l)) l = l.
Proof.
  rewrite length_firstn.
  destruct (Nat.le_ge_cases n (length l)) as [H|H].
  - rewrite Nat.min_l by exact H. apply firstn_skipn.
  - rewrite Nat.min_r by exact H.
    rewrite firstn_all2 by exact H. rewrite skipn_all. apply app_nil_r.
Qed.

Lemma raw_cons_gap (ch : ascii) (ps : list piece) :
  concat (map raw (cons_gap ch ps)) = ch :: concat (map raw ps).
Proof. destruct ps as [|[g|m] ps]; reflexivity. Qed.

(** The pieces make up the text. *)
Lemma scan_from_raw (r : regex) (s : text) :
  forall skip, concat (map raw (scan_from r skip s)) = skipn skip s.
Proof.
  induction s as [|ch s IH]; intros skip.
  - rewrite skipn_nil. cbn [scan_from].
    destruct skip; [|reflexivity].
    destruct (re_match r []) as [m|] eqn:Hm; [|reflexivity].
    apply re_match_prefix in Hm as [n ->]. now rewrite firstn_nil.
  - destruct skip as [|k]; cbn [scan_from skipn]; [|apply IH].
    destruct (re_match r (ch :: s)) as [[|c0 m]|] eqn:Hm.
    + cbn [map raw concat app]. now rewrite raw_cons_gap, IH.
    + apply re_match_prefix in Hm as [n Hn].
      destruct n as [|n]; [discriminate|].
      cbn [firstn] in Hn. injection Hn as -> ->.
      cbn [map raw concat]. rewrite IH.
      replace (length (ch :: firstn n s) - 1) with (length (firstn n s))
        by (cbn [length]; lia).
      cbn [app]. now rewrite firstn_skipn_length.
    + now rewrite raw_cons_gap, IH.
Qed.

Lemma scan_raw (r : regex) (s : text) : concat (map raw (scan r s)) = s.
Proof. apply (scan_from_raw r s 0). Qed.

Lemma In_Match_cons_gap (ch : ascii) (m : text) (ps : list piece) :
  In (Match m) (cons_gap ch ps) -> In (Match m) ps.
Proof.
  destruct ps as [|[g|m'] ps]; cbn [cons_gap In]; intuition discriminate.
Qed.

(** Every match among the pieces is a match of the pattern somewhere. *)
Lemma scan_from_Match (r : regex) (s : text) (m : text) :
  forall skip, In (Match m) (scan_from r skip s) ->
               exists s', re_match r s' = Some m.
Proof.
  induction s as [|ch s IH]; intros skip; cbn [scan_from].
  - destruct skip; [|intros []].
    destruct (re_match r []) as [m'|] eqn:Hm; [|intros []].
    intros [H|[]]. injection H as ->. now exists [].
  - destruct skip as [|k]; [|apply IH].
    destruct (re_match r (ch :: s)) as [[|c0 m']|] eqn:Hm.
    + intros [H|H].
      * injection H as <-. now exists (ch :: s).
      * apply In_Match_cons_gap in H. now apply (IH 0).
    + intros [H|H].
      * injection H as <-. now exists (ch :: s).
      * now apply (IH _ H).
    + intros H. apply In_Match_cons_gap in H. now apply (IH 0).
Qed.

(** Where the pattern matches no empty text, no match starts in a gap. *)
Lemma scan_from_gaps (r : regex) (s : text) :
  (forall s', re_match r s' <> Some []) ->
  forall skip, gaps_unmatched r (scan_from r skip s).
Proof.
  intros Hne. induction s as [|ch s IH]; intros skip; cbn [scan_from].
  - destruct skip; [|exact I]. now destruct (re_match r []).
  - destruct skip as [|k]; [|apply IH].
    destruct (re_match r (ch :: s)) as [[|c0 m']|] eqn:Hm.
    + now apply Hne in Hm.
    + cbn [gaps_unmatched]. apply IH.
    + pose proof (IH 0) as Hrest.
      pose proof (scan_from_raw r s 0) as Hraw. cbn [skipn] in Hraw.
      destruct (scan_from r 0 s) as [|[g|m'] ps];
        cbn [cons_gap gaps_unmatched].
      * split; [|exact I]. intros a b Hab Hb.
        destruct a as [|x a].
        -- cbn [app] in Hab. subst b.
           replace ([ch] ++ concat (map raw [])) with (ch :: s);
             [exact Hm|]. now rewrite <- Hraw.
        -- injection Hab as _ Hab. symmetry in Hab.
           apply app_eq_nil in Hab as [_ ->]. congruence.
      * cbn [gaps_unmatched] in Hrest. destruct Hrest as [Hg Hps].
        split; [|exact Hps]. intros a b Hab Hb.
        destruct a as [|x a].
        -- cbn [app] in Hab. subst b.
           replace ((ch :: g) ++ concat (map raw ps)) with (ch :: s);
             [exact Hm|]. now rewrite <- Hraw.
        -- injection Hab as _ Hab. now apply (Hg a b).
      * split; [|exact Hrest]. intros a b Hab Hb.
        destruct a as [|x a].
        -- cbn [app] in Hab. subst b.
           replace ([ch] ++ concat (map raw (Match m' :: ps)))
             with (ch :: s); [exact Hm|]. now rewrite <- Hraw.
        -- injection Hab as _ Hab. symmetry in Hab.
           apply app_eq_nil in Hab as [_ ->]. congruence.
Qed.

Lemma gaps_unmatched_In (r : regex) (ps : list piece) (g : text) :
  gaps_unmatched r ps -> In (Gap g) ps ->
  forall a b, g = a ++ b -> b <> [] ->
              exists rest, re_match r (b ++ rest) = None.
Proof.
  induction ps as [|[g'|m] ps IH]; cbn [gaps_unmatched In].
  - intros _ [].
  - intros [Hg Hps] [H|H].
    + injection H as ->. intros a b Hab Hb. eexists. now apply (Hg a b).
    + now apply IH.
  - intros Hps [H|H]; [discriminate | now apply IH].
Qed.

(** *** The pattern [\w+\.o] *)

Lemma word_char (ch : ascii) :
  word ch = true ->
  Ascii.eqb "." ch = false /\ Ascii.eqb "/" ch = false /\
  (Ascii.eqb ch "*" || Ascii.eqb ch "?" || Ascii.eqb ch "[") = false.
Proof.
  destruct ch as [[] [] [] [] [] [] [] []]; vm_compute; intros H;
    first [discriminate H | repeat split].
Qed.

Lemma firstn_length_app {A} (l r : list A) :
  firstn (length (l ++ r) - length r) (l ++ r) = l.
Proof.
  rewrite length_app. replace (length l + length r - length r)
    with (length l + 0) by lia.
  rewrite firstn_app_2. cbn [firstn]. apply app_nil_r.
Qed.

Lemma ends_word_run (w rest : text) :
  forallb word w = true ->
  flat_map (ends (Lit (txt ".o"))) (star_ends word (w ++ txt ".o" ++ rest)) =
  [rest].
Proof.
  induction w as [|ch w IH]; intros Hw.
  - reflexivity.
  - cbn [forallb] in Hw. apply andb_true_iff in Hw as [Hch Hw].
    change ((ch :: w) ++ txt ".o" ++ rest) with (ch :: w ++ txt ".o" ++ rest).
    cbn [star_ends]. rewrite Hch, flat_map_app, (IH Hw).
    cbn [flat_map ends]. change (txt ".o") with ("."%char :: txt "o").
    cbn [startswith]. destruct (word_char _ Hch) as [-> _]. reflexivity.
Qed.

(** A token is matched where it starts, whatever follows. *)
Lemma ends_obj_re_token (t rest : text) :
  obj_token t -> ends obj_re (t ++ rest) = [rest].
Proof.
  intros [w [Hne [Hw ->]]]. destruct w as [|ch w]; [congruence|].
  cbn [forallb] in Hw. apply andb_true_iff in Hw as [Hch Hw].
  unfold obj_re. cbn [ends]. rewrite <- app_assoc.
  change ((ch :: w) ++ txt ".o" ++ rest) with (ch :: w ++ txt ".o" ++ rest).
  cbn [plus_ends]. rewrite Hch. now apply ends_word_run.
Qed.

Lemma re_match_token (t rest : text) :
  obj_token t -> re_match obj_re (t ++ rest) = Some t.
Proof.
  intros Ht. unfold re_match. rewrite (ends_obj_re_token rest Ht).
  now rewrite firstn_length_app.
Qed.

(** What the pattern matches is a token. *)
Lemma re_match_obj_token (s m : text) :
  re_match obj_re s = Some m -> obj_token m.
Proof.
  unfold re_match. destruct (ends obj_re s) as [|rest l] eqn:He;
    [discriminate|].
  intros H. injection H as <-.
  assert (In rest (ends obj_re s)) as Hin by (rewrite He; now left).
  unfold obj_re in Hin. apply In_ends_Seq in Hin as [mid [Hmid Hrest]].
  apply In_plus_ends in Hmid as [w [Hne [-> Hw]]].
  apply In_ends_Lit in Hrest as ->.
  exists w. repeat split; try assumption.
  rewrite app_assoc. apply firstn_length_app.
Qed.

Lemma obj_token_length (t : text) : obj_token t -> 3 <= length t.
Proof.
  intros [w [Hne [_ ->]]]. rewrite length_app. destruct w; [congruence|].
  cbn. lia.
Qed.

Lemma obj_re_nonempty (s : text) : re_match obj_re s <> Some [].
Proof.
  intros H. apply re_match_obj_token, obj_token_length in H.
  cbn in H. lia.
Qed.

(** A token is a plain name for [rglob]. *)
Lemma rglob_token (t : node) (base : PurePath) (m : text) :
  obj_token m -> rglob t base m = Some (rglob_name t base m).
Proof.
  intros Hm. pose proof (obj_token_length Hm) as Hlen.
  destruct Hm as [w [Hne [Hw ->]]]. unfold rglob.
  assert (forall x, text_eqb (w ++ txt ".o") x = true -> 3 <= length x)
    as Heq.
  { intros x Hx. apply text_eqb_eq in Hx. now subst x. }
  destruct (text_eqb (w ++ txt ".o") (txt "*")) eqn:E1;
    [apply Heq in E1; cbn in E1; lia|].
  destruct (text_eqb (w ++ txt ".o") (txt "..")) eqn:E2;
    [apply Heq in E2; cbn in E2; lia|].
  assert (kept (w ++ txt ".o") = true) as ->.
  { unfold kept.
    destruct (text_eqb (w ++ txt ".o") []) eqn:E3;
      [apply Heq in E3; cbn in E3; lia|].
    destruct (text_eqb (w ++ txt ".o") (txt ".")) eqn:E4;
      [apply Heq in E4; cbn in E4; lia|].
    reflexivity. }
  assert (is_wildcard_pattern (w ++ txt ".o") = false) as ->.
  { unfold is_wildcard_pattern. rewrite existsb_app.
    apply orb_false_iff. split; [|reflexivity].
    clear - Hw. induction w as [|ch w IH]; [reflexivity|].
    cbn [forallb] in Hw. apply andb_true_iff in Hw as [Hch Hw].
    cbn [existsb]. destruct (word_char _ Hch) as [_ [_ ->]].
    now apply IH. }
  assert (existsb (Ascii.eqb "/") (w ++ txt ".o") = false) as ->.
  { rewrite existsb_app. apply orb_false_iff. split; [|reflexivity].
    clear - Hw. induction w as [|ch w IH]; [reflexivity|].
    cbn [forallb] in Hw. apply andb_true_iff in Hw as [Hch Hw].
    cbn [existsb]. destruct (word_char _ Hch) as [_ [-> _]].
    now apply IH. }
  reflexivity.
Qed.

(** What the search for a name finds: entries of that name in the
    directories below the base, which exist. *)
Lemma rglob_name_found (t : node) (base p : PurePath) (n : text) :
  In p (rglob_name t base n) ->
  root p = root base /\ name p = n /\ exists_ t p = true /\
  exists rel, names p = names base ++ rel ++ [n].
Proof.
  unfold rglob_name.
  destruct (stat t base) as [[| |es]|]; try solve [intros []].
  intros Hin. apply in_flat_map in Hin as [d [Hd Hp]].
  apply iterate_directories_below in Hd as [Hroot [rel Hrel]].
  destruct (exists_ t (child d n)) eqn:Hex; [|destruct Hp].
  destruct Hp as [<-|[]].
  split; [exact Hroot|]. split; [|split].
  - unfold name, child. cbn [names]. apply last_last.
  - exact Hex.
  - exists rel. cbn [child names]. now rewrite Hrel, app_assoc.
Qed.

(** *** The rewriting *)

Section Host.

Variable World : Type.
Variable fs : World -> node.

Lemma replace_with_path_outcome (m : text) (w : World) :
  value (replace_with_path fs m w) =
    inl (match rglob (fs w) (Path chroot_dir) m with
         | Some (p :: _) => str p
         | _ => m
         end) /\
  world (replace_with_path fs m w) = w.
Proof.
  unfold replace_with_path, bind, ask. cbn [value world trace].
  destruct (rglob (fs w) (Path chroot_dir) m) as [[|p l]|]; split;
    reflexivity.
Qed.

(** A traversal by computations that read the world and leave it. *)
Lemma map_m_reading {A B} (f : A -> M World B) (g : A -> B)
  (l : list A) (w : World) :
  (forall x, In x l -> value (f x w) = inl (g x) /\ world (f x w) = w) ->
  value (map_m f l w) = inl (map g l) /\ world (map_m f l w) = w.
Proof.
  induction l as [|x l IH]; intros Hf; [now split|].
  destruct (Hf x (or_introl eq_refl)) as [Hv Hw].
  destruct IH as [IHv IHw]; [intros y Hy; apply Hf; now right|].
  cbn [map_m].
  rewrite (bind_inl (f x) _ w Hv). cbn [value world]. rewrite Hw.
  rewrite (bind_inl (map_m f l) _ w IHv). cbn [value world]. rewrite IHw.
  unfold ret. cbn [value world map]. now split.
Qed.

Lemma resolve_objects_outcome (specs : text) (w : World) :
  value (resolve_objects fs specs w) =
    inl (concat (map (rewritten (fs w)) (scan obj_re specs))) /\
  world (resolve_objects fs specs w) = w.
Proof.
  unfold resolve_objects, re_sub.
  pose proof (@map_m_reading _ _
    (fun p => match p with
              | Gap g => ret g
              | Match m => replace_with_path fs m
              end)
    (rewritten (fs w)) (scan obj_re specs) w) as [Hv Hw].
  - intros [g|m] Hin; [now split|].
    destruct (replace_with_path_outcome m w) as [Hv Hw].
    split; [|exact Hw]. rewrite Hv. cbn [rewritten].
    apply (scan_from_Match obj_re specs m 0) in Hin as [s' Hs'].
    apply re_match_obj_token in Hs'.
    now rewrite (rglob_token (fs w) (Path chroot_dir) Hs').
  - rewrite (bind_inl _ _ w Hv). cbn [value world]. rewrite Hw.
    unfold ret. cbn [value world]. now split.
Qed.

End Host.

(** *** Claim C5 *)

(** C5: [re.sub] cuts the specs text into its tokens -- word characters
    followed by [.o], leftmost first -- and the text between them, in which
    no token is left.  A token for which the search of the chroot finds an
    entry of that name is replaced by the path of the first entry found,
    which is absolute and lies in the chroot; a token for which the search
    finds nothing stays as it is, like the text between the tokens; and no
    exception is raised. *)
Theorem object_tokens_resolved_or_kept
  (World : Type) (fs : World -> node) (w : World) (specs : text) :
  let pieces := scan obj_re specs in
  concat (map raw pieces) = specs /\
  (forall m, In (Match m) pieces -> obj_token m) /\
  (forall g, In (Gap g) pieces ->
             ~ exists a t b, g = a ++ t ++ b /\ obj_token t) /\
  value (resolve_objects fs specs w) =
    inl (concat (map (rewritten (fs w)) pieces)) /\
  world (resolve_objects fs specs w) = w /\
  (forall m found,
     In found (rglob_name (fs w) (Path chroot_dir) m) ->
     is_absolute found = true /\ name found = m /\
     exists_ (fs w) found = true /\
     exists rel, names found = chroot_names ++ rel ++ [m]) /\
  (forall m,
     rewritten (fs w) (Match m) =
       match rglob_name (fs w) (Path chroot_dir) m with
       | found :: _ => str found
       | [] => m
       end).
Proof.
  cbv zeta. split; [apply scan_raw|].
  split.
  { intros m Hin.
    apply (scan_from_Match obj_re specs m 0) in Hin as [s' Hs'].
    now apply re_match_obj_token in Hs'. }
  split.
  { intros g Hin [a [t [b [Hg Ht]]]].
    pose proof (scan_from_gaps obj_re specs obj_re_nonempty 0) as Hgaps.
    destruct (@gaps_unmatched_In _ _ _ Hgaps Hin a (t ++ b) Hg)
      as [rest Hnone].
    - destruct Ht as [w' [Hne [_ ->]]]. now destruct w'.
    - rewrite <- app_assoc, (re_match_token _ Ht) in Hnone. discriminate. }
  destruct (resolve_objects_outcome fs specs w) as [Hv Hw].
  split; [exact Hv|]. split; [exact Hw|].
  split; [|reflexivity].
  intros m found Hin. apply rglob_name_found in Hin
    as [Hroot [Hname [Hex Hrel]]].
  repeat split; try assumption.
  apply PathFacts.is_absolute_root. rewrite Hroot. discriminate.
Qed.

End Objects.

(** ** The definitions at work *)

Module Examples.
Import Str Re Pathlib Fs Script Run Spec.

Example replace_all_occurrences :
  replace (txt "ab") (txt "X") (txt "cababab-abb") = txt "cXXX-Xb".
Proof. reflexivity. Qed.

Example replace_left_to_right :
  replace (txt "aa") (txt "b") (txt "aaa") = txt "ba".
Proof. reflexivity. Qed.

Example replace_empty_old :
  replace [] (txt "-") (txt "abc") = txt "-a-b-c-".
Proof. reflexivity. Qed.

Example times_negative : times (txt "../") (-1) = [].
Proof. reflexivity. Qed.

Example split_slashes :
  split "/" (txt "/a//b/") = [txt ""; txt "a"; txt ""; txt "b"; txt ""].
Proof. reflexivity. Qed.

Example Path_two_slashes :
  Path (txt "//lib/x") = mkPath (txt "//") [txt "lib"; txt "x"].
Proof. reflexivity. Qed.

Example Path_three_slashes :
  Path (txt "///lib/x") = mkPath (txt "/") [txt "lib"; txt "x"].
Proof. reflexivity. Qed.

Example Path_respelled :
  str (Path (txt "a/./b//c/")) = txt "a/b/c".
Proof. reflexivity. Qed.

Example Path_empty : str (Path []) = txt ".".
Proof. reflexivity. Qed.

Example Path_keeps_steps_back :
  names (Path (txt "/lib/../usr")) = [txt "lib"; txt ".."; txt "usr"].
Proof. reflexivity. Qed.

Example parent_of_root : parent (Path (txt "/")) = Path (txt "/").
Proof. reflexivity. Qed.

Example parts_of_parent :
  parts (parent (Path (txt "/lib/arm-linux-gnueabihf/libc.so"))) =
  [txt "/"; txt "lib"; txt "arm-linux-gnueabihf"].
Proof. reflexivity. Qed.

(** The classes on the code points below U+0100. *)
Example digit_table :
  filter (fun n => digit (ascii_of_nat n)) (seq 0 256) = seq 48 10.
Proof. vm_compute. reflexivity. Qed.

Example word_table :
  filter (fun n => word (ascii_of_nat n)) (seq 0 256) =
  seq 48 10 ++ seq 65 26 ++ [95] ++ seq 97 26 ++
  [170; 178; 179; 181; 185; 186; 188; 189; 190] ++
  seq 192 23 ++ seq 216 31 ++ seq 248 8.
Proof. vm_compute. reflexivity. Qed.

Example dot_table :
  filter (fun n => negb (dot (ascii_of_nat n))) (seq 0 256) = [10].
Proof. vm_compute. reflexivity. Qed.

Example link_re_line_feeds :
  re_match link_re (txt "libm.so" ++ [nl]) = Some (txt "libm.so") /\
  re_match link_re (txt "libm.so" ++ [nl; nl]) = None /\
  re_match link_re (txt "libx" ++ [nl] ++ txt ".so") = None.
Proof. repeat split. Qed.

Example link_re_so : re_match link_re (txt "libc.so") = Some (txt "libc.so").
Proof. reflexivity. Qed.

Example link_re_so_digits :
  re_match link_re (txt "libc.so.6") = Some (txt "libc.so.6").
Proof. reflexivity. Qed.

Example link_re_a : re_match link_re (txt "libm.a") = Some (txt "libm.a").
Proof. reflexivity. Qed.

Example link_re_two_suffixes : re_match link_re (txt "libc.so.6.1") = None.
Proof. reflexivity. Qed.

Example link_re_version_name : re_match link_re (txt "libc-2.28.so") =
                               Some (txt "libc-2.28.so").
Proof. reflexivity. Qed.

Example link_re_other : re_match link_re (txt "libc.so.6a") = None.
Proof. reflexivity. Qed.

Example obj_re_scan :
  scan obj_re (txt "%{shared:crti.o%s} crt1.obj a.x b_1.o.o") =
  [Gap (txt "%{shared:"); Match (txt "crti.o"); Gap (txt "%s} ");
   Match (txt "crt1.o"); Gap (txt "bj a.x "); Match (txt "b_1.o");
   Gap (txt ".o")].
Proof. reflexivity. Qed.

(** A link to a directory is followed by [stat] and not entered by the
    walk. *)
Example stat_follows_links :
  stat Sample.linked_tree (Path (txt "/b/x.o")) = Some (File []) /\
  lstat Sample.linked_tree (Path (txt "/b")) = Some (Link (txt "/a")) /\
  exists_ Sample.linked_tree (Path (txt "/c")) = false /\
  is_symlink Sample.linked_tree (Path (txt "/c")) = true.
Proof. repeat split. Qed.

Example walk_does_not_enter_links :
  rglob_all Sample.linked_tree (Path (txt "/")) =
  [Path (txt "/a"); Path (txt "/b"); Path (txt "/c"); Path (txt "/a/x.o")].
Proof. reflexivity. Qed.

Example search_in_walk_order :
  map str (rglob_name Sample.host (Path chroot_dir) (txt "crti.o")) =
  [txt "/var/chroot/raspbian_buster_armhf/usr/lib/arm-linux-gnueabihf/crti.o";
   txt "/var/chroot/raspbian_buster_armhf/usr/lib/gcc/crti.o"].
Proof. vm_compute. reflexivity. Qed.

(** The specs of the sample host, rewritten: the placeholder, the two
    object files the chroot holds, and [crtn.o], which it does not hold. *)
Example sample_specs_rewritten :
  value (resolve_objects (fun w : node => w)
           (substitute_search_paths Sample.specs_text) Sample.host) =
  inl (txt "*startfile:" ++ [nl] ++
       txt "%{shared:/var/chroot/raspbian_buster_armhf/usr/lib/arm-linux-gnueabihf/crti.o%s} " ++
       txt "/var/chroot/raspbian_buster_armhf/usr/lib/arm-linux-gnueabihf/crt1.o crtn.o " ++
       ld_search_paths ++ [nl]).
Proof. vm_compute. reflexivity. Qed.

Example sample_run_succeeds :
  value (Sample.main_run Sample.sh_ok) = inl tt /\
  entered (trace (Sample.main_run Sample.sh_ok)) = main_order.
Proof. split; vm_compute; reflexivity. Qed.

(** The command of [install_host_deps] as the script builds it: the two
    literals are joined without a blank. *)
Example install_command :
  commands (trace (install_host_deps Sample.sh_ok Sample.host)) =
  [(txt "sudo apt update", 0%Z);
   (txt "sudo apt install -y gcc-8-arm-linux-gnueabihf g++-8-arm-linux-gnueabihf cmake build-essentialqemu-user-static binfmt-support debootstrap schroot",
     0%Z)].
Proof. reflexivity. Qed.

End Examples.

(** ** Further properties of the script *)

Module Further.
Import Str StrFacts Re ReFacts Pathlib PathFacts Fs Script Run Spec More
       RunFacts Walk.

Local Notation "m ;; k" := (bind m (fun _ => k))
  (at level 61, right associativity).

Lemma not_In_nl (n : text) : existsb (Ascii.eqb nl) n = false -> ~ In nl n.
Proof.
  intros H Hin. assert (existsb (Ascii.eqb nl) n = true); [|congruence].
  apply existsb_exists. exists nl. split; [exact Hin | apply Ascii.eqb_refl].
Qed.

(** *** The placeholder *)

(** X1: the substitution of the placeholder is idempotent, and its result
    holds no placeholder: the flags put in bring none, and none arises
    where they meet the text around them. *)
Theorem substitution_idempotent (specs : text) :
  substitute_search_paths (substitute_search_paths specs) =
    substitute_search_paths specs /\
  ~ occurs (txt "%D") (substitute_search_paths specs).
Proof.
  split; [apply SearchPaths.substitute_search_paths_idempotent|].
  intros Hocc. apply occursb_iff in Hocc.
  pose proof (SearchPaths.replace_from_placeholder_free specs 0) as Hfree.
  unfold substitute_search_paths, replace in Hocc.
  cbn [txt list_ascii_of_string] in Hocc, Hfree. congruence.
Qed.

(** *** The pattern of the names *)

(** X2: what the pattern of [fix_absolute_links] accepts, line feeds
    included: [re.match] succeeds on a name exactly when the name is some
    characters without a line feed, then [.so], [.so.<digits>] or [.a],
    then nothing or one line feed. *)
Theorem link_pattern_accepts (n : text) :
  (exists m, re_match link_re n = Some m) <->
  exists pre suf tail,
    n = pre ++ suf ++ tail /\ ~ In nl pre /\ lib_suffix suf /\
    (tail = [] \/ tail = [nl]).
Proof.
  rewrite re_match_Some. split.
  - intros [r Hr]. apply Classifier.In_ends_link_re in Hr
      as [pre [suf [Hn [Hpre [Hsuf Hr]]]]].
    exists pre, suf, r. repeat split; try assumption.
    now apply Classifier.forallb_dot.
  - intros [pre [suf [tail [Hn [Hpre [Hsuf Htail]]]]]].
    exists tail. apply Classifier.In_ends_link_re.
    exists pre, suf. repeat split; try assumption.
    now apply Classifier.forallb_dot.
Qed.

(** X3: on an entry whose name holds no line feed the test of the loop is
    the one the names suggest: the entry is taken exactly when it is a
    symbolic link and its name ends with [.so], [.so.<digits>] or [.a]. *)
Theorem eligible_without_line_feed (t : node) (path : PurePath) :
  ~ In nl (name path) ->
  (eligible t path = true <->
   is_symlink t path = true /\ lib_name (name path)).
Proof.
  intros Hnl. unfold eligible. rewrite andb_true_iff.
  rewrite <- (@Classifier.link_re_lib_name (name path) Hnl).
  destruct (re_match link_re (name path)) as [m|].
  - intuition eauto.
  - split; intros [H1 H2]; [discriminate | destruct H2; discriminate].
Qed.

Lemma eligible_without_line_feed_witness :
  eligible Sample.host
    (Path (txt "/var/chroot/raspbian_buster_armhf/lib/arm-linux-gnueabihf/libc.so"))
  = true <->
  is_symlink Sample.host
    (Path (txt "/var/chroot/raspbian_buster_armhf/lib/arm-linux-gnueabihf/libc.so"))
  = true /\
  lib_name
    (name (Path (txt "/var/chroot/raspbian_buster_armhf/lib/arm-linux-gnueabihf/libc.so"))).
Proof.
  apply (@eligible_without_line_feed Sample.host
           (Path (txt "/var/chroot/raspbian_buster_armhf/lib/arm-linux-gnueabihf/libc.so"))).
  apply not_In_nl. vm_compute. reflexivity.
Defined.

(** *** The new target *)



(** *** The search for the object files *)

(** X5: every path the rewriter puts in the place of a token is spelled
    with the chroot directory in front and the token at the end: it is the
    chroot directory, a slash, and either the token or some directories, a
    slash and the token. *)
Theorem found_path_spelling (t : node) (m : text) (found : PurePath) :
  In found (rglob_name t (Path chroot_dir) m) ->
  str found = chroot_dir ++ txt "/" ++ m \/
  exists dirs, str found = chroot_dir ++ txt "/" ++ dirs ++ txt "/" ++ m.
Proof.
  intros Hin. apply Objects.rglob_name_found in Hin
    as [Hroot [_ [_ [rel Hrel]]]].
  unfold str. rewrite Hroot, Hrel.
  change (names (Path chroot_dir)) with chroot_names.
  change (root (Path chroot_dir)) with (txt "/").
  rewrite join_app; [| discriminate | now destruct rel].
  destruct rel as [|d rel].
  - left. reflexivity.
  - right. exists (join (txt "/") (d :: rel)).
    rewrite join_app by discriminate. reflexivity.
Qed.

Lemma found_path_spelling_witness :
  str (Path (txt "/var/chroot/raspbian_buster_armhf/usr/lib/gcc/crti.o")) =
    chroot_dir ++ txt "/" ++ txt "crti.o" \/
  exists dirs,
    str (Path (txt "/var/chroot/raspbian_buster_armhf/usr/lib/gcc/crti.o")) =
    chroot_dir ++ txt "/" ++ dirs ++ txt "/" ++ txt "crti.o".
Proof.
  apply (@found_path_spelling Sample.host (txt "crti.o")
           (Path (txt "/var/chroot/raspbian_buster_armhf/usr/lib/gcc/crti.o"))).
  vm_compute. right. left. reflexivity.
Defined.

(** *** The registration of the chroot *)

(** Text without an opening brace holds no placeholder of the
    registration, and none can start in it. *)
Lemma replace_from_user_free (new a s : text) :
  forallb (fun z => negb (Ascii.eqb "{" z)) a = true ->
  replace_from (txt "{user}") new 0 (a ++ s) =
    a ++ replace_from (txt "{user}") new 0 s.
Proof.
  induction a as [|z a IH]; intros Ha; [reflexivity|].
  cbn [forallb] in Ha. apply andb_true_iff in Ha as [Hz Ha].
  apply negb_true_iff in Hz.
  change ((z :: a) ++ s) with (z :: a ++ s).
  cbn [replace_from].
  change (startswith (txt "{user}") (z :: a ++ s))
    with (Ascii.eqb "{" z && startswith (txt "user}") (a ++ s)).
  rewrite Hz. cbn [andb].
  rewrite <- app_comm_cons. f_equal. now apply IH.
Qed.

Ltac replace_user :=
  change (replace_from (txt "{user}") ?u 0 schroot_config)
    with (replace_from (txt "{user}") u 0
            (([nl] ++
              txt "[raspbian_buster_armhf]" ++ [nl] ++
              txt "description=Raspbian Buster armhf chroot" ++ [nl] ++
              txt "type=directory" ++ [nl] ++
              txt "directory=/var/chroot/raspbian_buster_armhf" ++ [nl] ++
              txt "users=") ++ txt "{user}" ++
             ([nl] ++ txt "root-groups=root,") ++ txt "{user}" ++ [nl]));
  rewrite replace_from_user_free by (vm_compute; reflexivity);
  rewrite replace_from_hit by discriminate;
  rewrite replace_from_user_free by (vm_compute; reflexivity);
  rewrite replace_from_hit by discriminate;
  reflexivity.

Lemma schroot_config_replaced (user : text) :
  replace_from (txt "{user}") user 0 schroot_config = schroot_config_for user.
Proof. replace_user. Qed.

(** X11: the registration [install_chroot] writes is the configuration
    with the name of the user in both places of the placeholder, whatever
    the name is: an empty name, or a name that holds the placeholder
    itself, is put in as it is and not looked at again. *)
Theorem registration_names_the_user (user : text) :
  replace (txt "{user}") user schroot_config = schroot_config_for user.
Proof.
  change (replace (txt "{user}") user schroot_config)
    with (replace_from (txt "{user}") user 0 schroot_config).
  replace_user.
Qed.

(** *** The toolchain file *)

(** X17: the toolchain file agrees with the rest of the script.  The flags
    for C and for C++ are the same flags in the same order (the two texts
    differ in their spaces only); among them are the specs file under the
    name and in the directory [write_gcc_specs] moves it to, and the chroot
    directory as the sysroot of the linker and as the system include
    directory; and the file sets the chroot directory as [CMAKE_SYSROOT]. *)
Theorem toolchain_file_agrees_with_script :
  flag_words cmake_c_flags = flag_words cmake_cxx_flags /\
  In (txt "-specs=/opt/toolchains/" ++ name (Path specs_file))
     (flag_words cmake_c_flags) /\
  In (txt "-Wl,--sysroot=" ++ chroot_dir) (flag_words cmake_c_flags) /\
  In (txt "-isystem=" ++ chroot_dir) (flag_words cmake_c_flags) /\
  occurs (txt "set(CMAKE_SYSROOT " ++ chroot_dir ++ txt ")")
         cmake_toolchain_text.
Proof.
  assert (forall x l, existsb (text_eqb x) l = true -> In x l) as Hin.
  { intros x l H. apply existsb_exists in H as [y [Hy Heq]].
    apply text_eqb_eq in Heq. now subst y. }
  split; [vm_compute; reflexivity|].
  split; [apply Hin; vm_compute; reflexivity|].
  split; [apply Hin; vm_compute; reflexivity|].
  split; [apply Hin; vm_compute; reflexivity|].
  apply occursb_iff. vm_compute. reflexivity.
Qed.

(** *** Runs on any host *)

Section Host.

Variable World : Type.
Variable fs : World -> node.
Variable sh : text -> World -> Z * World.
Variable spawn : list text -> World -> text * Z.
Variable write_text : text -> text -> World -> World.
Variable login : World -> text.

Lemma bind_assoc {A B C} (m : M World A) (f : A -> M World B)
  (g : B -> M World C) (w : World) :
  bind (bind m f) g w = bind m (fun a => bind (f a) g) w.
Proof.
  unfold bind. destruct (value (m w)) as [a|e]; cbn [value world trace];
    [|reflexivity].
  destruct (value (f a (world (m w)))) as [b|e]; cbn [value world trace];
    [|reflexivity].
  now rewrite app_assoc.
Qed.

(** **** The body of the loop, by the kind of the entry *)

Lemma fix_link_relinkable (path : PurePath) (w : World) :
  relinkable (fs w) path = true ->
  let cmd := relink_command (fs w) path in
  value (fix_link fs sh path w) =
    (if Z.eqb (fst (sh cmd w)) 0 then inl tt
     else inr (CalledProcessError (fst (sh cmd w)) cmd)) /\
  world (fix_link fs sh path w) = snd (sh cmd w) /\
  commands (trace (fix_link fs sh path w)) = [(cmd, fst (sh cmd w))].
Proof.
  unfold relinkable, relink_command. intros H.
  apply andb_true_iff in H as [He Ha].
  destruct (readlink (fs w) path) as [target|] eqn:Hr; [|discriminate].
  cbv zeta. rewrite (@fix_link_absolute World fs sh path w target He Hr Ha).
  repeat split.
Qed.

Lemma fix_link_not_relinkable (path : PurePath) (w : World) :
  relinkable (fs w) path = false ->
  fix_link fs sh path w = Outcome (inl tt) w [].
Proof.
  unfold relinkable. intros H.
  destruct (@fix_link_cases World fs sh path w)
    as [Hn | [target [He [Hr Ha]]]]; [exact Hn|].
  rewrite He, Hr, Ha in H. discriminate.
Qed.

Lemma bind_ask_outcome {A B} (f : World -> A) (k : A -> M World B)
    (w w' : World) (v : B + exn) (t : list event) :
  k (f w) w = Outcome v w' t -> bind (ask f) k w = Outcome v w' t.
Proof.
  intros H. unfold bind, ask. cbn [value world trace app].
  rewrite H. reflexivity.
Qed.

(** A computation that returns, followed by another. *)
Lemma bind_step {A B} (m : M World A) (k : A -> M World B)
    (w w1 : World) (a : A) (t1 : list event) :
  m w = Outcome (inl a) w1 t1 ->
  bind m k w =
    Outcome (value (k a w1)) (world (k a w1)) (t1 ++ trace (k a w1)).
Proof. intros H. unfold bind. rewrite H. reflexivity. Qed.

Lemma popen_read_outcome (argv : list text) (w : World) :
  popen_read spawn argv w =
    Outcome (inl (fst (spawn argv w))) w [Spawned argv (snd (spawn argv w))].
Proof. unfold popen_read. now destruct (spawn argv w). Qed.

Lemma write_file_outcome (file content : text) (w : World) :
  write_file write_text file content w =
    Outcome (inl tt) (write_text file content w) [Wrote file content].
Proof. reflexivity. Qed.

Lemma rglob_all_no_dir (t : node) (base : PurePath) :
  is_dir t base = false -> rglob_all t base = [].
Proof.
  unfold rglob_all, is_dir.
  destruct (stat t base) as [[| |es]|]; try reflexivity.
  intros H. discriminate H.
Qed.

Lemma value_bind_ask {A B} (f : World -> A) (k : A -> M World B) (w : World) :
  value (bind (ask f) k w) = value (k (f w) w).
Proof. reflexivity. Qed.

Lemma fix_link_dry (path : PurePath) (w : World) :
  dry_run fs sh ->
  value (fix_link fs sh path w) = inl tt /\
  fs (world (fix_link fs sh path w)) = fs w /\
  commands (trace (fix_link fs sh path w)) =
    if relinkable (fs w) path
    then [(relink_command (fs w) path, 0%Z)] else [].
Proof.
  intros Hdry. destruct (relinkable (fs w) path) eqn:Hre.
  - destruct (fix_link_relinkable path w Hre) as [Hv [Hw Hc]].
    destruct (Hdry (relink_command (fs w) path) w) as [Hst Hfs].
    rewrite Hv, Hw, Hc, Hst. now repeat split.
  - rewrite (fix_link_not_relinkable path w Hre). now repeat split.
Qed.

Lemma for_each_dry (l : list PurePath) :
  dry_run fs sh ->
  forall w,
    value (for_each l (fix_link fs sh) w) = inl tt /\
    fs (world (for_each l (fix_link fs sh) w)) = fs w /\
    commands (trace (for_each l (fix_link fs sh) w)) =
      map (fun p => (relink_command (fs w) p, 0%Z))
          (filter (relinkable (fs w)) l).
Proof.
  intros Hdry. induction l as [|p l IH]; intros w; [now repeat split|].
  destruct (fix_link_dry p w Hdry) as [Hv [Hfs Hc]].
  destruct (IH (world (fix_link fs sh p w))) as [IHv [IHfs IHc]].
  rewrite Hfs in IHfs, IHc.
  cbn [for_each]. rewrite (bind_inl _ _ w Hv). cbn [value world trace].
  split; [exact IHv|]. split; [exact IHfs|].
  rewrite commands_app, Hc, IHc. cbn [filter].
  now destruct (relinkable (fs w) p).
Qed.

(** **** The fixup as a whole *)

(** X6: what the fixup does when nothing is tried out -- every command
    succeeds and leaves the file system as it is: it runs one command for
    every link below [lib] that is eligible and has an absolute target, in
    the order of the walk, each command setting the new target of its
    link, and no other command; and it ends without an exception. *)
Theorem fixup_runs_one_command_per_link (w : World) :
  dry_run fs sh ->
  value (fix_absolute_links fs sh w) = inl tt /\
  commands (trace (fix_absolute_links fs sh w)) =
    map (fun p => (relink_command (fs w) p, 0%Z))
        (filter (relinkable (fs w)) (rglob_all (fs w) lib_dir)).
Proof.
  intros Hdry. unfold fix_absolute_links.
  rewrite value_bind_ask, trace_bind_ask.
  destruct (for_each_dry (rglob_all (fs w) lib_dir) Hdry w)
    as [Hv [_ Hc]].
  split; [exact Hv | exact Hc].
Qed.

(** X7: where the [lib] of the chroot is missing or is no directory, the
    fixup walks nothing: it runs no command, raises nothing and leaves the
    world as it is. *)
Theorem fixup_without_lib (w : World) :
  is_dir (fs w) lib_dir = false ->
  fix_absolute_links fs sh w = Outcome (inl tt) w [].
Proof.
  intros Hdir. unfold fix_absolute_links.
  apply bind_ask_outcome.
  unfold lib_dir in Hdir.
  rewrite (@rglob_all_no_dir (fs w) _ Hdir).
  reflexivity.
Qed.

(** X8: where no link below [lib] is left to set anew -- every eligible
    link has a relative target already -- the fixup is silent: it runs no
    command, prints nothing, raises nothing and leaves the world as it
    is, whatever the shell would do. *)
Theorem fixup_of_relative_links (w : World) :
  (forall p, In p (rglob_all (fs w) lib_dir) -> relinkable (fs w) p = false) ->
  fix_absolute_links fs sh w = Outcome (inl tt) w [].
Proof.
  intros Hnone. unfold fix_absolute_links.
  apply bind_ask_outcome. apply for_each_nothing.
  intros p Hp. apply fix_link_not_relinkable. apply Hnone. exact Hp.
Qed.

(** **** The second rewriting of the specs *)

Lemma replace_with_path_full (m : text) (w : World) :
  obj_token m ->
  replace_with_path fs m w =
    Outcome (inl (rewritten (fs w) (Match m))) w
            (announcement (fs w) (Match m)).
Proof.
  intros Hm. unfold replace_with_path, bind, ask.
  cbn [value world trace app rewritten announcement].
  rewrite (Objects.rglob_token (fs w) (Path chroot_dir) Hm).
  destruct (rglob_name (fs w) (Path chroot_dir) m) as [|found l];
    reflexivity.
Qed.

(** A traversal by computations that leave the world. *)
Lemma map_m_full {A B} (f : A -> M World B) (g : A -> B)
  (h : A -> list event) (l : list A) (w : World) :
  (forall x, In x l -> f x w = Outcome (inl (g x)) w (h x)) ->
  map_m f l w = Outcome (inl (map g l)) w (flat_map h l).
Proof.
  induction l as [|x l IH]; intros Hf; [reflexivity|].
  cbn [map_m]. rewrite (@bind_step _ _ _ _ _ _ _ _ (Hf x (or_introl eq_refl))).
  rewrite (@bind_step _ _ _ _ _ _ _ _ (IH (fun y Hy => Hf y (or_intror Hy)))).
  unfold ret. cbn [value world trace map flat_map].
  now rewrite app_nil_r.
Qed.

Lemma resolve_objects_full (specs : text) (w : World) :
  resolve_objects fs specs w =
    Outcome (inl (concat (map (rewritten (fs w)) (scan obj_re specs)))) w
            (flat_map (announcement (fs w)) (scan obj_re specs)).
Proof.
  unfold resolve_objects, re_sub, bind.
  rewrite (@map_m_full _ _ _ (rewritten (fs w)) (announcement (fs w))).
  - cbn [value world trace]. unfold ret. cbn [value world trace].
    now rewrite app_nil_r.
  - intros [g|m] Hin; [reflexivity|].
    apply replace_with_path_full.
    apply (Objects.scan_from_Match obj_re specs m 0) in Hin as [s' Hs'].
    now apply Objects.re_match_obj_token in Hs'.
Qed.

(** X9: where the search of the chroot finds none of the tokens of the
    specs, the second rewriting gives the specs back as they are, prints
    nothing and leaves the world as it is. *)
Theorem specs_without_found_objects (specs : text) (w : World) :
  (forall m, In (Match m) (scan obj_re specs) ->
             rglob_name (fs w) (Path chroot_dir) m = []) ->
  resolve_objects fs specs w = Outcome (inl specs) w [].
Proof.
  intros Hnone. rewrite resolve_objects_full.
  assert (forall p, In p (scan obj_re specs) ->
                    rewritten (fs w) p = raw p /\ announcement (fs w) p = [])
    as Hp.
  { intros [g|m] Hin; [now split|].
    cbn [rewritten announcement raw]. now rewrite (Hnone m Hin). }
  f_equal.
  - f_equal. rewrite <- (Objects.scan_raw obj_re specs) at 2. f_equal.
    apply map_ext_in. intros p Hin. now apply Hp.
  - assert (forall ps,
              (forall p, In p ps -> announcement (fs w) p = []) ->
              flat_map (announcement (fs w)) ps = []) as Hflat.
    { induction ps as [|p ps IH]; intros H; [reflexivity|].
      cbn [flat_map]. rewrite (H p) by now left.
      apply IH. intros q Hq. apply H. now right. }
    apply Hflat. intros p Hin. now apply Hp.
Qed.

(** X10: [write_gcc_specs] from end to end.  The exit status of the
    compiler is not looked at: whatever it is, the output of the compiler is
    rewritten twice -- the placeholder first, the tokens of what comes out
    of that second, against the file system as it is then --, a line is
    printed for every token replaced, the result is written to the file in
    [/tmp], and the file is moved; only the exit status of the move decides
    how the function ends. *)
Theorem specs_written_whatever_the_compiler_returns (w : World) :
  let file := txt "/tmp/gcc-8-armv6-specs.txt" in
  let mv := txt "sudo mv /tmp/gcc-8-armv6-specs.txt /opt/toolchains/" in
  let pieces :=
    scan obj_re (substitute_search_paths (fst (spawn dumpspecs_argv w))) in
  let content := concat (map (rewritten (fs w)) pieces) in
  let moved := sh mv (write_text file content w) in
  let o := write_gcc_specs fs sh spawn write_text w in
  trace o =
    Spawned dumpspecs_argv (snd (spawn dumpspecs_argv w)) ::
    flat_map (announcement (fs w)) pieces ++
    [Wrote file content; Ran mv (fst moved)] /\
  world o = snd moved /\
  value o = if Z.eqb (fst moved) 0 then inl tt
            else inr (CalledProcessError (fst moved) mv).
Proof.
  cbv zeta. unfold write_gcc_specs, dumpspecs_argv.
  rewrite (@bind_step _ _ _ _ _ _ _ _ (popen_read_outcome _ w)).
  cbv beta zeta.
  rewrite (@bind_step _ _ _ _ _ _ _ _ (resolve_objects_full _ w)).
  rewrite (@bind_step _ _ _ _ _ _ _ _ (write_file_outcome _ _ w)).
  unfold c.
  destruct (sh (txt "sudo mv /tmp/gcc-8-armv6-specs.txt /opt/toolchains/")
              (write_text (txt "/tmp/gcc-8-armv6-specs.txt")
                 (concat (map (rewritten (fs w))
                    (scan obj_re
                       (substitute_search_paths
                          (fst (spawn [txt "/usr/bin/arm-linux-gnueabihf-g++-8";
                                       txt "-dumpspecs"] w)))))) w))
    as [st w'].
  cbn [fst snd].
  destruct (Z.eqb st 0); cbn [value world trace app]; repeat split.
Qed.

(** **** [install_chroot] *)

Lemma ask_outcome {A} (f : World -> A) (w : World) :
  ask f w = Outcome (inl (f w)) w [].
Proof. reflexivity. Qed.

Lemma ret_outcome {A} (a : A) (w : World) :
  ret a w = Outcome (inl a) w [].
Proof. reflexivity. Qed.

Lemma c_ok (cmd : text) (w : World) :
  fst (sh cmd w) = 0%Z ->
  c sh cmd w = Outcome (inl tt) (snd (sh cmd w)) [Ran cmd 0].
Proof.
  unfold c. destruct (sh cmd w) as [st w']. cbn [fst snd].
  intros ->. reflexivity.
Qed.

Lemma c_cases (cmd : text) (w : World) :
  c sh cmd w =
    Outcome (inl tt) (snd (sh cmd w)) [Ran cmd (fst (sh cmd w))] \/
  c sh cmd w =
    Outcome (inr (CalledProcessError (fst (sh cmd w)) cmd)) (snd (sh cmd w))
            [Ran cmd (fst (sh cmd w))].
Proof.
  unfold c. destruct (sh cmd w) as [st w']. cbn [fst snd].
  destruct (Z.eqb st 0); [now left | now right].
Qed.

Lemma runs_from_first_of {A} (o : outcome World A) (cmd : text)
    (l : list text) :
  runs_from o cmd l -> runs_first_of o (cmd :: l).
Proof.
  intros [[k Hk] Hall]. split; [now exists (S k) | exact Hall].
Qed.

Lemma runs_from_c (cmd : text) (w : World) : runs_from (c sh cmd w) cmd [].
Proof.
  unfold runs_from, command_lines.
  destruct (c_cases cmd w) as [-> | ->]; cbn [value trace commands map fst];
    (split; [now exists 0 | reflexivity]).
Qed.

Lemma runs_from_c_then (cmd : text) (k : M World unit) (l : list text)
    (w : World) :
  (forall w', runs_first_of (k w') l) ->
  runs_from (bind (c sh cmd) (fun _ => k) w) cmd l.
Proof.
  intros Hk. unfold runs_from, command_lines.
  destruct (c_cases cmd w) as [E | E].
  - rewrite (@bind_step _ _ _ _ _ _ _ _ E).
    cbn [value trace app commands map fst].
    destruct (Hk (snd (sh cmd w))) as [[n Hn] Hall].
    unfold command_lines in Hn, Hall. split.
    + exists n. now rewrite Hn.
    + intros a Ha. f_equal. now apply (Hall a).
  - rewrite (@bind_inr _ _ _ _ _ w _ (f_equal (@value World unit) E)).
    rewrite E. cbn [value trace commands map fst]. split.
    + now exists 0.
    + intros a Ha. discriminate Ha.
Qed.

Lemma bind_run {A B} (m : M World A) (k : A -> M World B)
    (w w1 : World) (a : A) (t1 : list event) :
  m w = Outcome (inl a) w1 t1 -> bind m k w = prefixed t1 (k a w1).
Proof. intros H. unfold bind, prefixed. rewrite H. reflexivity. Qed.

Lemma prefixed_outcome {A} (pre t : list event) (v : A + exn) (w : World) :
  prefixed pre (Outcome v w t) = Outcome v w (pre ++ t).
Proof. reflexivity. Qed.

Lemma value_prefixed {A} (pre : list event) (o : outcome World A) :
  value (prefixed pre o) = value o.
Proof. reflexivity. Qed.

Lemma trace_prefixed {A} (pre : list event) (o : outcome World A) :
  trace (prefixed pre o) = pre ++ trace o.
Proof. reflexivity. Qed.

Lemma command_lines_prefixed {A} (pre : list event) (o : outcome World A) :
  command_lines (prefixed pre o) = map fst (commands pre) ++ command_lines o.
Proof.
  unfold command_lines. rewrite trace_prefixed, commands_app.
  apply map_app.
Qed.

Lemma register_runs (w : World) :
  runs_from
    ((c sh (txt "sudo chown root:root /tmp/raspbian_buster_armhf") ;;
      c sh (txt "sudo mv /tmp/raspbian_buster_armhf /etc/schroot/chroot.d/") ;;
      c sh (txt "sudo schroot -c raspbian_buster_armhf -- apt-get update") ;;
      c sh (txt "sudo schroot -c raspbian_buster_armhf -- apt-get install -y build-essential g++ gcc cmake"))
       w)
    (txt "sudo chown root:root /tmp/raspbian_buster_armhf")
    [txt "sudo mv /tmp/raspbian_buster_armhf /etc/schroot/chroot.d/";
     txt "sudo schroot -c raspbian_buster_armhf -- apt-get update";
     txt "sudo schroot -c raspbian_buster_armhf -- apt-get install -y build-essential g++ gcc cmake"].
Proof.
  apply runs_from_c_then. intros w1. apply runs_from_first_of.
  apply runs_from_c_then. intros w2. apply runs_from_first_of.
  apply runs_from_c_then. intros w3. apply runs_from_first_of.
  apply runs_from_c.
Qed.

(** X12: on a host that has the keyring and the shell of the chroot,
    [install_chroot] downloads nothing and bootstraps nothing: it writes the
    registration for the user first and then runs the four commands that
    register the chroot and install its packages, up to the first that
    fails, and all four when it ends without an exception. *)
Theorem provisioned_host_is_only_registered (w : World) :
  is_file (fs w) keyring_file = true ->
  exists_ (fs w) bash_file = true ->
  let o := install_chroot fs sh write_text login w in
  (exists post,
     trace o = Wrote (txt "/tmp/raspbian_buster_armhf")
                     (schroot_config_for (login w)) :: post) /\
  (exists k, command_lines o = firstn (S k) register_commands) /\
  (forall a, value o = inl a -> command_lines o = register_commands).
Proof.
  intros Hkey Hbash. unfold keyring_file in Hkey. unfold bash_file in Hbash.
  cbv zeta. unfold install_chroot, getuser.
  rewrite (@bind_run _ _ _ _ _ _ _ _ (ask_outcome _ w)).
  cbv beta. rewrite Hkey. cbn [negb].
  rewrite (@bind_run _ _ _ _ _ _ _ _ (ret_outcome tt w)).
  rewrite (@bind_run _ _ _ _ _ _ _ _ (ask_outcome _ w)).
  cbv beta. rewrite Hbash. cbn [negb].
  rewrite (@bind_run _ _ _ _ _ _ _ _ (ret_outcome tt w)).
  rewrite (@bind_run _ _ _ _ _ _ _ _ (ask_outcome login w)).
  cbv beta zeta.
  rewrite (@bind_run _ _ _ _ _ _ _ _ (write_file_outcome _ _ w)).
  change (replace (txt "{user}") (login w) schroot_config)
    with (replace_from (txt "{user}") (login w) 0 schroot_config).
  rewrite schroot_config_replaced.
  rewrite !trace_prefixed, !value_prefixed, !command_lines_prefixed.
  cbn [app commands map].
  destruct (register_runs
              (write_text (txt "/tmp/raspbian_buster_armhf")
                 (schroot_config_for (login w)) w)) as [[n Hn] Hall].
  split; [now eexists|]. split.
  - exists n. exact Hn.
  - exact Hall.
Qed.

(** X13: [install_chroot] when every command succeeds.  The commands for
    the keyring are run exactly when the keyring is no file at the start;
    the commands of the bootstrap exactly when, after that, the shell of
    the chroot does not exist; then the registration is written, for the
    user as the system names them then, and the four commands that
    register the chroot are run.  Nothing else happens, and the function
    ends without an exception. *)
Theorem install_chroot_when_commands_succeed (w : World) :
  (forall cmd w', fst (sh cmd w') = 0%Z) ->
  let stage1 := if is_file (fs w) keyring_file then [] else keyring_commands in
  let w1 := after_commands sh stage1 w in
  let stage2 := if exists_ (fs w1) bash_file then [] else bootstrap_commands in
  let w2 := after_commands sh stage2 w1 in
  let file := txt "/tmp/raspbian_buster_armhf" in
  let content := schroot_config_for (login w2) in
  install_chroot fs sh write_text login w =
    Outcome (inl tt)
      (after_commands sh register_commands (write_text file content w2))
      (map ran_ok stage1 ++ map ran_ok stage2 ++
       Wrote file content :: map ran_ok register_commands).
Proof.
  intros Hok. cbv zeta.
  unfold install_chroot, getuser, keyring_file, bash_file.
  unfold after_commands, keyring_commands.
  rewrite (@bind_run _ _ _ _ _ _ _ _ (ask_outcome _ w)). cbv beta.
  destruct (is_file (fs w)
              (Path (txt "/usr/share/keyrings/raspbian-archive-keyring.gpg")));
    cbn [negb fold_left].
  all: repeat (rewrite ?bind_assoc;
               rewrite (@bind_run _ _ _ _ _ _ _ _ (c_ok _ _ (Hok _ _)));
               cbv beta).
  all: rewrite ?(@bind_run _ _ _ _ _ _ _ _ (ret_outcome tt _)).
  all: rewrite (@bind_run _ _ _ _ _ _ _ _ (ask_outcome _ _)); cbv beta.
  all: match goal with
       | |- context [exists_ ?t ?p] => destruct (exists_ t p)
       end; cbn [negb].
  all: repeat (rewrite ?bind_assoc;
               rewrite (@bind_run _ _ _ _ _ _ _ _ (c_ok _ _ (Hok _ _)));
               cbv beta).
  all: rewrite ?(@bind_run _ _ _ _ _ _ _ _ (ret_outcome tt _)).
  all: rewrite (@bind_run _ _ _ _ _ _ _ _ (ask_outcome login _));
       cbv beta zeta.
  all: rewrite (@bind_run _ _ _ _ _ _ _ _ (write_file_outcome _ _ _)).
  all: repeat (rewrite (@bind_run _ _ _ _ _ _ _ _ (c_ok _ _ (Hok _ _)));
               cbv beta).
  all: rewrite (c_ok _ _ (Hok _ _)).
  all: change (replace (txt "{user}") ?u schroot_config)
         with (replace_from (txt "{user}") u 0 schroot_config).
  all: rewrite !schroot_config_replaced.
  all: reflexivity.
Qed.

(** **** What a run may do *)

Section Only.

Variable P : event -> Prop.

Lemma only_ret {A} (a : A) : emits_only P (ret (World:=World) a).
Proof. intros w e []. Qed.

Lemma only_raise {A} (x : exn) : emits_only P (raise (World:=World) (A:=A) x).
Proof. intros w e []. Qed.

Lemma only_ask {A} (f : World -> A) : emits_only P (ask f).
Proof. intros w e []. Qed.

Lemma only_emit (e0 : event) : P e0 -> emits_only P (emit (World:=World) e0).
Proof. intros H w e [<-|[]]. exact H. Qed.

Lemma only_c (cmd : text) :
  (forall w, P (Ran cmd (fst (sh cmd w)))) -> emits_only P (c sh cmd).
Proof.
  intros H w e. destruct (c_cases cmd w) as [-> | ->]; cbn [trace];
    intros [<-|[]]; apply H.
Qed.

Lemma only_write_file (file content : text) :
  P (Wrote file content) -> emits_only P (write_file write_text file content).
Proof. intros H w e [<-|[]]. exact H. Qed.

Lemma only_popen_read (argv : list text) :
  (forall status, P (Spawned argv status)) ->
  emits_only P (popen_read spawn argv).
Proof.
  intros H w e. rewrite popen_read_outcome. cbn [trace].
  intros [<-|[]]. apply H.
Qed.

Lemma only_bind {A B} (m : M World A) (k : A -> M World B) :
  emits_only P m -> (forall a, emits_only P (k a)) -> emits_only P (bind m k).
Proof.
  intros Hm Hk w e. unfold bind.
  destruct (value (m w)) as [a|x]; cbn [trace].
  - rewrite in_app_iff. intros [H|H]; [exact (Hm w e H) | exact (Hk a _ e H)].
  - apply Hm.
Qed.

Lemma only_for_each {A} (l : list A) (body : A -> M World unit) :
  (forall x, emits_only P (body x)) -> emits_only P (for_each l body).
Proof.
  intros Hb. induction l as [|x l IH]; [apply only_ret|].
  cbn [for_each]. apply only_bind; [apply Hb | intros _; exact IH].
Qed.

Lemma only_map_m {A B} (f : A -> M World B) (l : list A) :
  (forall x, emits_only P (f x)) -> emits_only P (map_m f l).
Proof.
  intros Hf. induction l as [|x l IH]; [apply only_ret|].
  cbn [map_m]. apply only_bind; [apply Hf | intros y].
  apply only_bind; [exact IH | intros ys; apply only_ret].
Qed.

(** The events of the script, function by function, for a [P] that holds
    of each of them. *)
Hypothesis HEntered : forall f, P (Entered f).
Hypothesis HRan : forall cmd w, P (Ran cmd (fst (sh cmd w))).
Hypothesis HPrinted : forall line, P (Printed line).
Hypothesis HSpawned : forall status, P (Spawned dumpspecs_argv status).
Hypothesis HRegistration :
  forall user, P (Wrote registration_file (schroot_config_for user)).
Hypothesis HToolchain : P (Wrote toolchain_file cmake_toolchain_text).
Hypothesis HSpecs : forall content, P (Wrote specs_file content).

Ltac only_step :=
  first
    [ apply only_ret
    | apply only_raise
    | apply only_ask
    | apply only_c; intros ?; apply HRan
    | apply only_emit; first [apply HPrinted | apply HEntered]
    | apply only_write_file
    | apply only_popen_read; intros ?; apply HSpawned
    | apply only_for_each; intros ?
    | apply only_map_m; intros ?
    | match goal with
      | |- emits_only _ (if negb ?b then _ else _) => destruct b; cbn [negb]
      | |- emits_only _ (match ?x with _ => _ end) => destruct x
      end
    | apply only_bind; [| intros ?] ].

Lemma only_install_host_deps : emits_only P (install_host_deps sh).
Proof. unfold install_host_deps. repeat only_step. Qed.

Lemma only_make_dirs : emits_only P (make_dirs sh).
Proof. unfold make_dirs. repeat only_step. Qed.

Lemma only_install_chroot :
  emits_only P (install_chroot fs sh write_text login).
Proof.
  unfold install_chroot, getuser. repeat only_step.
  all: change (replace (txt "{user}") ?u schroot_config)
         with (replace_from (txt "{user}") u 0 schroot_config).
  all: rewrite schroot_config_replaced; apply HRegistration.
Qed.

Lemma only_write_cmake_toolchain :
  emits_only P (write_cmake_toolchain sh write_text).
Proof.
  unfold write_cmake_toolchain. repeat only_step. exact HToolchain.
Qed.

Lemma only_write_gcc_specs :
  emits_only P (write_gcc_specs fs sh spawn write_text).
Proof.
  unfold write_gcc_specs, resolve_objects, re_sub, replace_with_path, print.
  repeat only_step. apply HSpecs.
Qed.

Lemma only_fix_absolute_links : emits_only P (fix_absolute_links fs sh).
Proof.
  unfold fix_absolute_links, fix_link, print. repeat only_step.
Qed.

Lemma only_call (f : step) (body : M World unit) :
  emits_only P body -> emits_only P (call f body).
Proof.
  intros Hb. unfold call.
  apply only_bind; [apply only_emit, HEntered | intros _; exact Hb].
Qed.

Lemma only_main : emits_only P (main fs sh spawn write_text login).
Proof.
  unfold main.
  apply only_bind; [apply only_call, only_install_host_deps | intros _].
  apply only_bind; [apply only_call, only_install_chroot | intros _].
  apply only_bind; [apply only_call, only_make_dirs | intros _].
  apply only_bind; [apply only_call, only_write_cmake_toolchain | intros _].
  apply only_bind; [apply only_call, only_write_gcc_specs | intros _].
  apply only_call, only_fix_absolute_links.
Qed.

End Only.

(** X14: what a run of [main] does and what it never does.  Every event
    of every run is one of these: a function of [main] is entered; a shell
    command is run; a line is printed; the cross compiler is spawned with
    [-dumpspecs]; or one of three files is written -- the registration of
    the chroot, with the name of one user in the place of both
    placeholders, the toolchain file, with the fixed text, and the specs
    file.  The script spawns no other program and writes no other file
    itself: whatever else it changes, it changes through a command. *)
Theorem main_does_nothing_else (w : World) (e : event) :
  In e (trace (main fs sh spawn write_text login w)) -> expected_event e.
Proof.
  apply (@only_main expected_event); intros; cbn [expected_event];
    try exact I; try reflexivity.
  - left. split; [reflexivity | now eexists].
  - right. left. split; reflexivity.
  - right. right. reflexivity.
Qed.

(** X16: where every command succeeds, [main] ends without an exception,
    having entered its six functions in their order.  On the file system of
    this development, which has no permissions and no failing reads or
    writes, nothing but a failing command stops the script: the search for
    the object files, the reading of the links and the rewriting of the
    texts raise nothing. *)
Theorem main_succeeds_when_commands_succeed (w : World) :
  (forall cmd w', fst (sh cmd w') = 0%Z) ->
  value (main fs sh spawn write_text login w) = inl tt /\
  entered (trace (main fs sh spawn write_text login w)) = main_order.
Proof.
  intros Hok.
  assert (emits_only command_succeeded (main fs sh spawn write_text login))
    as Hall.
  { apply only_main; intros; cbn [command_succeeded]; try exact I.
    apply Hok. }
  destruct (main_follows fs sh spawn write_text login w) as [Ho [_ Hent]].
  unfold orderly in Ho.
  destruct (value (main fs sh spawn write_text login w)) as [[]|x] eqn:Hv.
  - split; [reflexivity | now apply (Hent tt)].
  - exfalso. destruct Ho as [pre [cmd [status [_ [Hne [Ht _]]]]]].
    apply Hne. apply (Hall w (Ran cmd status)).
    rewrite Ht. apply in_or_app. right. now left.
Qed.


End Host.

Lemma fixup_runs_one_command_per_link_witness :
  value (Sample.fix_run Sample.host) = inl tt /\
  commands (trace (Sample.fix_run Sample.host)) =
    map (fun p => (relink_command Sample.host p, 0%Z))
        (filter (relinkable Sample.host) (rglob_all Sample.host lib_dir)).
Proof.
  apply (@fixup_runs_one_command_per_link node (fun w => w) Sample.sh_ok
           Sample.host).
  intros cmd w. split; reflexivity.
Defined.

Lemma fixup_without_lib_witness :
  Sample.fix_run bare_host = Outcome (inl tt) bare_host [].
Proof.
  apply (@fixup_without_lib node (fun w => w) Sample.sh_ok bare_host).
  vm_compute. reflexivity.
Defined.

Lemma fixup_of_relative_links_witness :
  Sample.fix_run Sample.relinked_host =
    Outcome (inl tt) Sample.relinked_host [].
Proof.
  apply (@fixup_of_relative_links node (fun w => w) Sample.sh_ok
           Sample.relinked_host).
  assert (forallb (fun p => negb (relinkable Sample.relinked_host p))
            (rglob_all Sample.relinked_host lib_dir) = true) as Hall
    by (vm_compute; reflexivity).
  intros p Hp. apply negb_true_iff.
  exact (proj1 (forallb_forall _ _) Hall p Hp).
Defined.

Lemma specs_without_found_objects_witness :
  resolve_objects (fun w : node => w) Sample.specs_text bare_host =
    Outcome (inl Sample.specs_text) bare_host [].
Proof.
  apply (@specs_without_found_objects node (fun w => w) Sample.specs_text
           bare_host).
  intros m _. reflexivity.
Defined.

Lemma provisioned_host_is_only_registered_witness :
  let o := install_chroot (fun w => w) Sample.sh_ok Sample.write_nothing
             Sample.login_pi provisioned_host in
  (exists post,
     trace o = Wrote (txt "/tmp/raspbian_buster_armhf")
                     (schroot_config_for (txt "pi")) :: post) /\
  (exists k, command_lines o = firstn (S k) register_commands) /\
  (forall a, value o = inl a -> command_lines o = register_commands).
Proof.
  apply (@provisioned_host_is_only_registered node (fun w => w) Sample.sh_ok
           Sample.write_nothing Sample.login_pi provisioned_host).
  - vm_compute. reflexivity.
  - vm_compute. reflexivity.
Defined.

Lemma install_chroot_when_commands_succeed_witness :
  install_chroot (fun w => w) Sample.sh_ok Sample.write_nothing
    Sample.login_pi keyring_host =
  Outcome (inl tt) keyring_host
    (map ran_ok bootstrap_commands ++
     Wrote (txt "/tmp/raspbian_buster_armhf") (schroot_config_for (txt "pi"))
       :: map ran_ok register_commands).
Proof.
  apply (@install_chroot_when_commands_succeed node (fun w => w) Sample.sh_ok
           Sample.write_nothing Sample.login_pi keyring_host).
  intros cmd w'. reflexivity.
Defined.

Lemma main_does_nothing_else_witness :
  expected_event
    (Spawned [txt "/usr/bin/arm-linux-gnueabihf-g++-8"; txt "-dumpspecs"] 0).
Proof.
  apply (@main_does_nothing_else node (fun w => w) Sample.sh_ok
           (Sample.spawn_specs 0) Sample.write_nothing Sample.login_pi
           Sample.host
           (Spawned [txt "/usr/bin/arm-linux-gnueabihf-g++-8";
                     txt "-dumpspecs"] 0)).
  vm_compute. do 16 right. left. reflexivity.
Defined.


Lemma main_succeeds_when_commands_succeed_witness :
  value (Sample.main_run Sample.sh_ok) = inl tt /\
  entered (trace (Sample.main_run Sample.sh_ok)) = main_order.
Proof.
  apply (@main_succeeds_when_commands_succeed node (fun w => w) Sample.sh_ok
           (Sample.spawn_specs 0) Sample.write_nothing Sample.login_pi
           Sample.host).
  intros cmd w'. reflexivity.
Defined.

End Further.
